(** * Atmos registry (contracts/atmos-v2.clar): a shallow embedding

    The Clarity contract keeps three data variables and two maps.  Its
    functions are embedded as Rocq functions over an explicit [State];
    public functions run in a small monad that records early exits
    ([asserts!], [unwrap!]) and runtime errors (checked [uint] arithmetic),
    and are committed or rolled back by [define_public], as the Clarity
    virtual machine does for every [define-public] function. *)

From stdpp Require Import gmap strings list fin_maps.
From Stdlib Require Import ZArith NArith Lia.

Open Scope N_scope.

(** ** Clarity values *)

(** [principal]s are account addresses; [uint] is an unsigned 128-bit
    integer, [int] a signed one.  Strings are sequences of characters and
    [len] counts them. *)
Abbreviation principal := string.

Definition UINT_MAX : N := 2 ^ 128 - 1.

Definition len (s : string) : N := N.of_nat (String.length s).

Definition list_len (l : list N) : N := N.of_nat (length l).

(** Error codes: the payload [uNNN] of each [(err uNNN)] constant. *)
Definition ERR_NOT_AUTHORIZED : N := 401.
Definition ERR_DATASET_NOT_FOUND : N := 404.
Definition ERR_INVALID_PARAMS : N := 400.
Definition ERR_METADATA_FROZEN : N := 403.
Definition ERR_CONTRACT_PAUSED : N := 503.
Definition ERR_DATASET_EXISTS : N := 409.

Definition MAX_OWNER_DATASETS : N := 1000.
Definition MAX_PAGE_SIZE : N := 100.

(** ** Data model *)

Record Dataset := mkDataset {
  owner : principal;
  name : string;
  description : string;
  data_type : string;
  collection_date : N;
  altitude_min : N;
  altitude_max : N;
  latitude : Z;
  longitude : Z;
  ipfs_hash : string;
  is_public : bool;
  metadata_frozen : bool;
  created_at : N;
  status : string
}.

Record State := mkState {
  dataset_counter : N;
  contract_admin : principal;
  contract_paused : bool;
  datasets : gmap N Dataset;
  datasets_by_owner : gmap string (list N)
}.

(** The transaction context: [tx-sender] and [burn-block-height]. *)
Record Env := mkEnv {
  tx_sender : principal;
  burn_block_height : N
}.

(** State right after deployment: the deployer is the admin. *)
Definition initial_state (deployer : principal) : State :=
  {| dataset_counter := 0;
     contract_admin := deployer;
     contract_paused := false;
     datasets := ∅;
     datasets_by_owner := ∅ |}.

(** [(merge dataset { name: .., description: .., data-type: .., is-public: .. })] *)
Definition merge_metadata (d : Dataset) (n ds dt : string) (p : bool) : Dataset :=
  {| owner := owner d; name := n; description := ds; data_type := dt;
     collection_date := collection_date d; altitude_min := altitude_min d;
     altitude_max := altitude_max d; latitude := latitude d;
     longitude := longitude d; ipfs_hash := ipfs_hash d; is_public := p;
     metadata_frozen := metadata_frozen d; created_at := created_at d;
     status := status d |}.

(** [(merge dataset { metadata-frozen: true })] *)
Definition merge_frozen (d : Dataset) (f : bool) : Dataset :=
  {| owner := owner d; name := name d; description := description d;
     data_type := data_type d; collection_date := collection_date d;
     altitude_min := altitude_min d; altitude_max := altitude_max d;
     latitude := latitude d; longitude := longitude d;
     ipfs_hash := ipfs_hash d; is_public := is_public d;
     metadata_frozen := f; created_at := created_at d; status := status d |}.

(** [(merge dataset { owner: new-owner })] *)
Definition merge_owner (d : Dataset) (o : principal) : Dataset :=
  {| owner := o; name := name d; description := description d;
     data_type := data_type d; collection_date := collection_date d;
     altitude_min := altitude_min d; altitude_max := altitude_max d;
     latitude := latitude d; longitude := longitude d;
     ipfs_hash := ipfs_hash d; is_public := is_public d;
     metadata_frozen := metadata_frozen d; created_at := created_at d;
     status := status d |}.

(** ** Validator *)

Definition is_valid_status (st : string) : bool :=
  bool_decide (st = "active") || bool_decide (st = "deprecated").

Definition validate_fields (n ds dt : string) (cdate amin amax : N)
    (lat lon : Z) (ipfs st : string) : bool :=
  (1 <=? len n)
  && (1 <=? len ds)
  && (1 <=? len dt)
  && (0 <? cdate)
  && (amin <=? amax)
  && ((-90 * 1000000 <=? lat)%Z && (lat <=? 90 * 1000000)%Z)
  && ((-180 * 1000000 <=? lon)%Z && (lon <=? 180 * 1000000)%Z)
  && ((len ipfs =? 0) || (1 <=? len ipfs))
  && is_valid_status st.

(** ** Evaluation of function bodies

    A body either continues with a value, leaves the function early with
    [(err e)] (what [asserts!] and [unwrap!] do with the [ERR-...]
    constants), or hits a runtime error (overflow of checked [uint]
    arithmetic).  Writes made so far are carried in the state. *)

Inductive response (A : Type) : Type :=
| ok (a : A)
| err (e : N).
Arguments ok {A} a.
Arguments err {A} e.

Inductive outcome (A : Type) : Type :=
| Value (a : A) (s : State)
| Thrown (e : N) (s : State)
| RuntimeError.
Arguments Value {A} a s.
Arguments Thrown {A} e s.
Arguments RuntimeError {A}.

Definition M (A : Type) : Type := State → outcome A.

Definition ret {A} (a : A) : M A := λ s, Value a s.

Definition bind {A B} (m : M A) (k : A → M B) : M B :=
  λ s, match m s with
       | Value a s' => k a s'
       | Thrown e s' => Thrown e s'
       | RuntimeError => RuntimeError
       end.

Notation "x <- c ;; k" := (bind c (λ x, k))
  (at level 100, c at next level, right associativity).
Notation "c ;; k" := (bind c (λ _, k))
  (at level 100, right associativity).

Definition throw {A} (e : N) : M A := λ s, Thrown e s.
Definition runtime_error {A} : M A := λ _, RuntimeError.

Definition asserts (c : bool) (e : N) : M bool :=
  if c then ret true else throw e.

Definition unwrap {A} (o : option A) (e : N) : M A :=
  match o with Some a => ret a | None => throw e end.

Definition unwrap_response {A} (r : response A) (e : N) : M A :=
  match r with ok a => ret a | err _ => throw e end.

(** [(+ a b)] on [uint]: a runtime error when the sum leaves 128 bits. *)
Definition uint_add (a b : N) : M N :=
  if a + b <=? UINT_MAX then ret (a + b) else runtime_error.

Definition var_get {A} (f : State → A) : M A := λ s, Value (f s) s.

Definition with_dataset_counter (s : State) (n : N) : State :=
  {| dataset_counter := n; contract_admin := contract_admin s;
     contract_paused := contract_paused s; datasets := datasets s;
     datasets_by_owner := datasets_by_owner s |}.

Definition with_contract_admin (s : State) (a : principal) : State :=
  {| dataset_counter := dataset_counter s; contract_admin := a;
     contract_paused := contract_paused s; datasets := datasets s;
     datasets_by_owner := datasets_by_owner s |}.

Definition with_contract_paused (s : State) (p : bool) : State :=
  {| dataset_counter := dataset_counter s;
     contract_admin := contract_admin s;
     contract_paused := p; datasets := datasets s;
     datasets_by_owner := datasets_by_owner s |}.

Definition with_datasets (s : State) (m : gmap N Dataset) : State :=
  {| dataset_counter := dataset_counter s;
     contract_admin := contract_admin s;
     contract_paused := contract_paused s;
     datasets := m;
     datasets_by_owner := datasets_by_owner s |}.

Definition with_datasets_by_owner (s : State) (m : gmap string (list N))
    : State :=
  {| dataset_counter := dataset_counter s;
     contract_admin := contract_admin s;
     contract_paused := contract_paused s;
     datasets := datasets s;
     datasets_by_owner := m |}.

Definition var_set_dataset_counter (n : N) : M bool :=
  λ s, Value true (with_dataset_counter s n).

Definition var_set_contract_admin (a : principal) : M bool :=
  λ s, Value true (with_contract_admin s a).

Definition var_set_contract_paused (p : bool) : M bool :=
  λ s, Value true (with_contract_paused s p).

Definition map_get_datasets (dataset_id : N) : M (option Dataset) :=
  var_get (λ s, datasets s !! dataset_id).

Definition map_set_datasets (dataset_id : N) (d : Dataset) : M bool :=
  λ s, Value true (with_datasets s (<[dataset_id := d]> (datasets s))).

Definition map_set_datasets_by_owner (o : principal) (ids : list N) : M bool :=
  λ s, Value true
    (with_datasets_by_owner s (<[o := ids]> (datasets_by_owner s))).

(** Clarity's [(fold f sequence initial)] calls [(f item accumulator)]
    from the first item to the last. *)
Definition fold {A B} (f : A → B → B) (l : list A) (init : B) : B :=
  fold_left (λ acc x, f x acc) l init.

(** [(as-max-len? l n)] *)
Definition as_max_len (l : list N) (n : N) : option (list N) :=
  if list_len l <=? n then Some l else None.

(** Modelled from the spec: [contains], which the contract calls in
    [add-dataset-to-owner] and does not define; the spec's word for it is
    that the id is "already present in the owner's sequence". *)
Definition contains (l : list N) (x : N) : bool := bool_decide (x ∈ l).

(** Modelled from the spec: [range], which the contract calls in
    [get-dataset-ids-page] and does not define; with the call
    [(range (+ offset u1) (+ last u1))] the spec's page is the identifiers
    [offset+1 .. last], so [range lo hi] lists [lo], [lo+1], ... up to but
    not including [hi]. *)
Definition range (lo hi : N) : list N :=
  map (λ i, lo + N.of_nat i) (seq 0 (N.to_nat (hi - lo))).

(** ** Private helper functions *)

Definition is_dataset_owner (env : Env) (dataset_id : N) : M bool :=
  dataset <- map_get_datasets dataset_id ;;
  ret match dataset with
      | Some data => bool_decide (tx_sender env = owner data)
      | None => false
      end.

(** [get-owner-entry] followed by [(get dataset-ids ...)]. *)
Definition owner_dataset_ids (s : State) (o : principal) : list N :=
  default [] (datasets_by_owner s !! o).

Definition get_owner_dataset_ids (o : principal) : M (list N) :=
  var_get (λ s, owner_dataset_ids s o).

Definition page_next_offset (offset : N) (page : list N) (total : N)
    : M (option N) :=
  next <- uint_add offset (list_len page) ;;
  ret (if next <? total then Some next else None).

(** The error payload of the private function is itself the constant
    [ERR-INVALID-PARAMS]; every caller discards it through [unwrap!]. *)
Definition add_dataset_to_owner (o : principal) (dataset_id : N)
    : M (response bool) :=
  current <- get_owner_dataset_ids o ;;
  if contains current dataset_id
  then ret (ok true)
  else match as_max_len (current ++ [dataset_id]) MAX_OWNER_DATASETS with
       | Some updated =>
           b <- map_set_datasets_by_owner o updated ;; ret (ok b)
       | None => ret (err ERR_INVALID_PARAMS)
       end.

(** The accumulator is the tuple [{ result, target }]. *)
Definition remove_fold (item : N) (acc : list N * N) : list N * N :=
  if bool_decide (item = acc.2) then acc else (acc.1 ++ [item], acc.2).

Definition remove_dataset_from_owner (o : principal) (dataset_id : N)
    : M bool :=
  current <- get_owner_dataset_ids o ;;
  let updated := (fold remove_fold current ([], dataset_id)).1 in
  map_set_datasets_by_owner o updated.

Definition check_not_paused : M bool :=
  paused <- var_get contract_paused ;; ret (negb paused).

(** ** Public functions (bodies) *)

Definition register_dataset (env : Env)
    (name description data_type : string)
    (collection_date altitude_min altitude_max : N)
    (latitude longitude : Z) (ipfs_hash : string) (is_public : bool)
    : M (response N) :=
  dataset_id <- (c <- var_get dataset_counter ;; uint_add c 1) ;;
  let owner_principal := tx_sender env in
  let current_time := burn_block_height env in
  (p <- check_not_paused ;; asserts p ERR_CONTRACT_PAUSED) ;;
  asserts (validate_fields name description data_type collection_date
             altitude_min altitude_max latitude longitude ipfs_hash "active")
          ERR_INVALID_PARAMS ;;
  map_set_datasets dataset_id
    {| owner := owner_principal; name := name; description := description;
       data_type := data_type; collection_date := collection_date;
       altitude_min := altitude_min; altitude_max := altitude_max;
       latitude := latitude; longitude := longitude;
       ipfs_hash := ipfs_hash; is_public := is_public;
       metadata_frozen := false; created_at := current_time;
       status := "active" |} ;;
  (r <- add_dataset_to_owner owner_principal dataset_id ;;
   unwrap_response r ERR_INVALID_PARAMS) ;;
  var_set_dataset_counter dataset_id ;;
  ret (ok dataset_id).

Definition update_dataset_metadata (env : Env) (dataset_id : N)
    (name description data_type : string) (is_public : bool)
    : M (response bool) :=
  dataset <- (o <- map_get_datasets dataset_id ;;
              unwrap o ERR_DATASET_NOT_FOUND) ;;
  (p <- check_not_paused ;; asserts p ERR_CONTRACT_PAUSED) ;;
  (b <- is_dataset_owner env dataset_id ;; asserts b ERR_NOT_AUTHORIZED) ;;
  asserts (negb (metadata_frozen dataset)) ERR_METADATA_FROZEN ;;
  asserts ((1 <=? len name) && (1 <=? len description)
           && (1 <=? len data_type)) ERR_INVALID_PARAMS ;;
  map_set_datasets dataset_id
    (merge_metadata dataset name description data_type is_public) ;;
  ret (ok true).

Definition freeze_dataset_metadata (env : Env) (dataset_id : N)
    : M (response bool) :=
  dataset <- (o <- map_get_datasets dataset_id ;;
              unwrap o ERR_DATASET_NOT_FOUND) ;;
  (p <- check_not_paused ;; asserts p ERR_CONTRACT_PAUSED) ;;
  (b <- is_dataset_owner env dataset_id ;; asserts b ERR_NOT_AUTHORIZED) ;;
  map_set_datasets dataset_id (merge_frozen dataset true) ;;
  ret (ok true).

Definition transfer_dataset (env : Env) (dataset_id : N)
    (new_owner : principal) : M (response bool) :=
  dataset <- (o <- map_get_datasets dataset_id ;;
              unwrap o ERR_DATASET_NOT_FOUND) ;;
  let old_owner := owner dataset in
  (p <- check_not_paused ;; asserts p ERR_CONTRACT_PAUSED) ;;
  (b <- is_dataset_owner env dataset_id ;; asserts b ERR_NOT_AUTHORIZED) ;;
  map_set_datasets dataset_id (merge_owner dataset new_owner) ;;
  remove_dataset_from_owner old_owner dataset_id ;;
  (r <- add_dataset_to_owner new_owner dataset_id ;;
   unwrap_response r ERR_INVALID_PARAMS) ;;
  ret (ok true).

Definition import_dataset (env : Env) (dataset_id : N) (owner : principal)
    (name description data_type : string)
    (collection_date altitude_min altitude_max : N)
    (latitude longitude : Z) (ipfs_hash : string)
    (is_public metadata_frozen : bool) (created_at : N) (status : string)
    : M (response N) :=
  (a <- var_get contract_admin ;;
   asserts (bool_decide (tx_sender env = a)) ERR_NOT_AUTHORIZED) ;;
  (p <- check_not_paused ;; asserts p ERR_CONTRACT_PAUSED) ;;
  asserts (0 <? dataset_id) ERR_INVALID_PARAMS ;;
  (o <- map_get_datasets dataset_id ;;
   asserts (bool_decide (o = None)) ERR_DATASET_EXISTS) ;;
  asserts (validate_fields name description data_type collection_date
             altitude_min altitude_max latitude longitude ipfs_hash status)
          ERR_INVALID_PARAMS ;;
  map_set_datasets dataset_id
    {| owner := owner; name := name; description := description;
       data_type := data_type; collection_date := collection_date;
       altitude_min := altitude_min; altitude_max := altitude_max;
       latitude := latitude; longitude := longitude;
       ipfs_hash := ipfs_hash; is_public := is_public;
       metadata_frozen := metadata_frozen; created_at := created_at;
       status := status |} ;;
  (r <- add_dataset_to_owner owner dataset_id ;;
   unwrap_response r ERR_INVALID_PARAMS) ;;
  (c <- var_get dataset_counter ;;
   if c <? dataset_id then var_set_dataset_counter dataset_id
   else ret true) ;;
  ret (ok dataset_id).

Definition set_contract_admin (env : Env) (new_admin : principal)
    : M (response principal) :=
  (a <- var_get contract_admin ;;
   asserts (bool_decide (tx_sender env = a)) ERR_NOT_AUTHORIZED) ;;
  var_set_contract_admin new_admin ;;
  ret (ok new_admin).

Definition set_paused (env : Env) (paused : bool) : M (response bool) :=
  (a <- var_get contract_admin ;;
   asserts (bool_decide (tx_sender env = a)) ERR_NOT_AUTHORIZED) ;;
  var_set_contract_paused paused ;;
  ret (ok paused).

(** ** Transactions

    What a caller observes: the response of the function, or the abort of
    the transaction by a runtime error. *)

Inductive receipt (A : Type) : Type :=
| Ok (a : A)
| Err (e : N)
| Abort.
Arguments Ok {A} a.
Arguments Err {A} e.
Arguments Abort {A}.

(** A [define-public] function commits its writes when its body ends in
    [(ok ...)]; on [(err ...)] and on a runtime error the virtual machine
    discards every write the body made. *)
Definition define_public {A} (body : M (response A)) (s : State)
    : receipt A * State :=
  match body s with
  | Value (ok a) s' => (Ok a, s')
  | Value (err e) _ => (Err e, s)
  | Thrown e _ => (Err e, s)
  | RuntimeError => (Abort, s)
  end.

(** A [define-read-only] function cannot write. *)
Definition define_read_only {A} (body : M (response A)) (s : State)
    : receipt A :=
  match body s with
  | Value (ok a) _ => Ok a
  | Value (err e) _ => Err e
  | Thrown e _ => Err e
  | RuntimeError => Abort
  end.

(** ** Read-only functions *)

Record Page := mkPage {
  items : list N;
  next_offset : option N
}.

Definition get_contract_admin : M (response principal) :=
  a <- var_get contract_admin ;; ret (ok a).

Definition is_contract_paused : M (response bool) :=
  p <- var_get contract_paused ;; ret (ok p).

Definition get_dataset_count : M (response N) :=
  c <- var_get dataset_counter ;; ret (ok c).

Definition get_datasets_by_owner (o : principal) (s : State) : list N :=
  default [] (datasets_by_owner s !! o).

Definition get_dataset_ids_page (offset limit : N) : M (response Page) :=
  total <- var_get dataset_counter ;;
  if (total =? 0) || (total <=? offset)
  then ret (ok {| items := []; next_offset := None |})
  else
    let safe_limit := if MAX_PAGE_SIZE <? limit then MAX_PAGE_SIZE else limit in
    end_ <- uint_add offset safe_limit ;;
    let last := if total <? end_ then total else end_ in
    lo <- uint_add offset 1 ;;
    hi <- uint_add last 1 ;;
    let items := range lo hi in
    next <- page_next_offset offset items total ;;
    ret (ok {| items := items; next_offset := next |}).

(** The page as the specification words it: identifiers [offset+1] to
    [min (offset + min limit max_page_size) counter], and the cursor
    [offset + returned_count] while that is below the counter. *)
Definition page_id_range (counter offset limit max_page_size : N) : Page :=
  if (counter =? 0) || (counter <=? offset)
  then {| items := []; next_offset := None |}
  else
    let effective_limit := N.min limit max_page_size in
    let upto := N.min (offset + effective_limit) counter in
    let ids := map (λ k, offset + N.of_nat k) (seq 1 (N.to_nat (upto - offset))) in
    {| items := ids;
       next_offset := if offset + list_len ids <? counter
                      then Some (offset + list_len ids) else None |}.

(** The sums [get-dataset-ids-page] computes stay within [uint]:
    [offset + safe-limit] and [last + 1]. *)
Definition page_fits (counter offset limit : N) : bool :=
  (offset + N.min limit MAX_PAGE_SIZE <=? UINT_MAX)
  && (N.min (offset + N.min limit MAX_PAGE_SIZE) counter <? UINT_MAX).

(** ** Calls and reachable states *)

Inductive Call : Type :=
| RegisterDataset (name description data_type : string)
    (collection_date altitude_min altitude_max : N)
    (latitude longitude : Z) (ipfs_hash : string) (is_public : bool)
| UpdateDatasetMetadata (dataset_id : N)
    (name description data_type : string) (is_public : bool)
| FreezeDatasetMetadata (dataset_id : N)
| TransferDataset (dataset_id : N) (new_owner : principal)
| ImportDataset (dataset_id : N) (owner : principal)
    (name description data_type : string)
    (collection_date altitude_min altitude_max : N)
    (latitude longitude : Z) (ipfs_hash : string)
    (is_public metadata_frozen : bool) (created_at : N) (status : string)
| SetContractAdmin (new_admin : principal)
| SetPaused (paused : bool).

Inductive CV : Type :=
| CUint (n : N)
| CBool (b : bool)
| CPrincipal (p : principal).

Definition returning {A} (inj : A → CV) (body : M (response A))
    : M (response CV) :=
  r <- body ;; ret match r with ok a => ok (inj a) | err e => err e end.

Definition body_of (env : Env) (c : Call) : M (response CV) :=
  match c with
  | RegisterDataset n ds dt cd amin amax lat lon ipfs pub =>
      returning CUint (register_dataset env n ds dt cd amin amax lat lon ipfs pub)
  | UpdateDatasetMetadata id n ds dt pub =>
      returning CBool (update_dataset_metadata env id n ds dt pub)
  | FreezeDatasetMetadata id =>
      returning CBool (freeze_dataset_metadata env id)
  | TransferDataset id new_owner =>
      returning CBool (transfer_dataset env id new_owner)
  | ImportDataset id o n ds dt cd amin amax lat lon ipfs pub fr cat st =>
      returning CUint
        (import_dataset env id o n ds dt cd amin amax lat lon ipfs pub fr cat st)
  | SetContractAdmin a => returning CPrincipal (set_contract_admin env a)
  | SetPaused p => returning CBool (set_paused env p)
  end.

Definition call (env : Env) (c : Call) (s : State) : receipt CV * State :=
  define_public (body_of env c) s.

(** The mutating operations of the registry, as opposed to the two
    administrative switches. *)
Definition is_mutation (c : Call) : bool :=
  match c with
  | SetContractAdmin _ | SetPaused _ => false
  | _ => true
  end.

(** States the deployed contract can be in: the initial one and those a
    transaction leads to. *)
Inductive reachable : State → Prop :=
| reachable_init deployer : reachable (initial_state deployer)
| reachable_call env c s : reachable s → reachable (call env c s).2.

(** [steps s s']: some sequence of transactions leads from [s] to [s']. *)
Inductive steps : State → State → Prop :=
| steps_refl s : steps s s
| steps_call env c s s' : steps s s' → steps s (call env c s').2.

(** ** Observations and invariants *)

Definition is_Ok {A} (r : receipt A) : bool :=
  match r with Ok _ => true | _ => false end.

Definition is_frozen (s : State) (dataset_id : N) : bool :=
  match datasets s !! dataset_id with
  | Some d => metadata_frozen d
  | None => false
  end.

(** The registry invariants the transfer bookkeeping relies on: records
    live at identifiers up to the counter, every indexed id has a record
    owned by the index's owner, every record is in its owner's index, and
    no index lists an id twice. *)
Record registry_inv (s : State) : Prop := {
  inv_bounded : ∀ id d, datasets s !! id = Some d → id ≤ dataset_counter s;
  inv_indexed : ∀ o id, id ∈ owner_dataset_ids s o →
                  ∃ d, datasets s !! id = Some d ∧ owner d = o;
  inv_owned : ∀ id d, datasets s !! id = Some d →
                id ∈ owner_dataset_ids s (owner d);
  inv_nodup : ∀ o, NoDup (owner_dataset_ids s o)
}.

(** The record [register-dataset] writes. *)
Definition registered_dataset (env : Env) (n ds dt : string)
    (cd amin amax : N) (lat lon : Z) (ipfs : string) (pub : bool) : Dataset :=
  {| owner := tx_sender env; name := n; description := ds; data_type := dt;
     collection_date := cd; altitude_min := amin; altitude_max := amax;
     latitude := lat; longitude := lon; ipfs_hash := ipfs; is_public := pub;
     metadata_frozen := false; created_at := burn_block_height env;
     status := "active" |}.

(** The owner index after [id] has been appended to [o]'s sequence. *)
Definition index_append (s : State) (o : principal) (id : N)
    : gmap string (list N) :=
  <[o := owner_dataset_ids s o ++ [id]]> (datasets_by_owner s).

(** The owner index after [id] has been filtered out of [o]'s sequence. *)
Definition index_remove (s : State) (o : principal) (id : N)
    : gmap string (list N) :=
  <[o := filter (λ x, x ≠ id) (owner_dataset_ids s o)]> (datasets_by_owner s).

(** The owner index after [id] has moved from [old_owner]'s sequence to
    the end of [new_owner]'s. *)
Definition index_transfer (s : State) (old_owner new_owner : principal)
    (id : N) : gmap string (list N) :=
  <[new_owner := default [] (index_remove s old_owner id !! new_owner) ++ [id]]>
    (index_remove s old_owner id).

(** The record [import-dataset] writes. *)
Definition imported_dataset (o : principal) (n ds dt : string)
    (cd amin amax : N) (lat lon : Z) (ipfs : string) (pub fr : bool)
    (cat : N) (st : string) : Dataset :=
  {| owner := o; name := n; description := ds; data_type := dt;
     collection_date := cd; altitude_min := amin; altitude_max := amax;
     latitude := lat; longitude := lon; ipfs_hash := ipfs; is_public := pub;
     metadata_frozen := fr; created_at := cat; status := st |}.

(** ** Sample principals, calls and states *)

Definition alice : principal := "SPA".
Definition bob : principal := "SPB".
Definition carol : principal := "SPC".

Definition as_alice : Env := {| tx_sender := alice; burn_block_height := 100 |}.
Definition as_bob : Env := {| tx_sender := bob; burn_block_height := 101 |}.

Definition sample_register : Call :=
  RegisterDataset "Temperature Data" "Atmospheric dataset" "temperature"
    1640995200 1000 5000 40000000 (-74000000) "QmTestHash123" true.

Definition sample_import (id : N) (o : principal) : Call :=
  ImportDataset id o "Imported" "Backfilled dataset" "pressure"
    1640995200 0 100 0 0 EmptyString false true 42 "deprecated".

(** Alice deploys the contract and registers one dataset. *)
Definition one_record : State :=
  (call as_alice sample_register (initial_state alice)).2.

(** Then she pauses the contract. *)
Definition paused_registry : State :=
  (call as_alice (SetPaused true) one_record).2.

(** A registry in which Bob's index is full. *)
Definition bob_is_full : State :=
  with_datasets_by_owner one_record
    (<[bob := range 2 1002]> (datasets_by_owner one_record)).

(** Alice freezes her record. *)
Definition frozen_registry : State :=
  (call as_alice (FreezeDatasetMetadata 1) one_record).2.

(** The admin backfills the largest identifier a [uint] can hold. *)
Definition top_registry : State :=
  (call as_alice (sample_import UINT_MAX carol) (initial_state alice)).2.

(** ** Pagination over an owner's index *)

(** The accumulator of [slice-fold], the tuple
    [{ result, idx, offset, end }]. *)
Record SliceAcc := mkSliceAcc {
  acc_result : list N;
  acc_idx : N;
  acc_offset : N;
  acc_end : N
}.

(** [fold] with a function whose body can hit a runtime error. *)
Fixpoint fold_M {A B} (f : A → B → M B) (l : list A) (acc : B) : M B :=
  match l with
  | [] => ret acc
  | x :: l' => acc' <- f x acc ;; fold_M f l' acc'
  end.

Definition slice_fold (item : N) (acc : SliceAcc) : M SliceAcc :=
  let idx := acc_idx acc in
  next_idx <- uint_add idx 1 ;;
  if (acc_offset acc <=? idx) && (idx <? acc_end acc)
  then ret {| acc_result := acc_result acc ++ [item]; acc_idx := next_idx;
              acc_offset := acc_offset acc; acc_end := acc_end acc |}
  else ret {| acc_result := acc_result acc; acc_idx := next_idx;
              acc_offset := acc_offset acc; acc_end := acc_end acc |}.

Definition slice_list (l : list N) (offset limit : N) : M (list N) :=
  end_ <- uint_add offset limit ;;
  acc <- fold_M slice_fold l
           {| acc_result := []; acc_idx := 0;
              acc_offset := offset; acc_end := end_ |} ;;
  ret (acc_result acc).

Definition get_datasets_by_owner_page (o : principal) (offset limit : N)
    : M (response Page) :=
  all <- get_owner_dataset_ids o ;;
  let safe_limit := if MAX_PAGE_SIZE <? limit then MAX_PAGE_SIZE else limit in
  page <- slice_list all offset safe_limit ;;
  next <- page_next_offset offset page (list_len all) ;;
  ret (ok {| items := page; next_offset := next |}).

(** ** Record lookup *)

(** The response of [get-dataset]: its error payload is the whole
    constant [ERR-DATASET-NOT-FOUND], itself an [(err u404)]. *)
Inductive lookup_response : Type :=
| found (data : Dataset)
| not_found (e : response Dataset).

Definition get_dataset (dataset_id : N) (s : State) : lookup_response :=
  match datasets s !! dataset_id with
  | Some data => found data
  | None => not_found (err ERR_DATASET_NOT_FOUND)
  end.

(** ** Further invariants and relations on states *)

(** [validate-fields] applied to the fields of a stored record. *)
Definition record_valid (d : Dataset) : bool :=
  validate_fields (name d) (description d) (data_type d)
    (collection_date d) (altitude_min d) (altitude_max d)
    (latitude d) (longitude d) (ipfs_hash d) (status d).

(** Records sit at positive ids, no index is longer than its capacity,
    and every stored record passes the validator. *)
Record registry_wf (s : State) : Prop := {
  wf_positive : ∀ id d, datasets s !! id = Some d → 0 < id;
  wf_capacity : ∀ o, (length (owner_dataset_ids s o) ≤ 1000)%nat;
  wf_valid : ∀ id d, datasets s !! id = Some d → record_valid d = true
}.

(** How a stored record may differ from an earlier version of itself:
    the measurement fields, the creation time and the status are kept,
    and once frozen the flag and the descriptive fields are kept too. *)
Definition record_evolves (d d' : Dataset) : Prop :=
  collection_date d' = collection_date d
  ∧ altitude_min d' = altitude_min d
  ∧ altitude_max d' = altitude_max d
  ∧ latitude d' = latitude d
  ∧ longitude d' = longitude d
  ∧ ipfs_hash d' = ipfs_hash d
  ∧ created_at d' = created_at d
  ∧ status d' = status d
  ∧ (metadata_frozen d = true →
       metadata_frozen d' = true
       ∧ name d' = name d
       ∧ description d' = description d
       ∧ data_type d' = data_type d
       ∧ is_public d' = is_public d).

(** [registered n s]: [s] is what [n] successful registrations, by any
    callers, make of a freshly deployed contract. *)
Inductive registered : nat → State → Prop :=
| registered_O deployer : registered 0 (initial_state deployer)
| registered_S k s env n ds dt cd amin amax lat lon ipfs pub :
    registered k s →
    is_Ok (call env (RegisterDataset n ds dt cd amin amax lat lon ipfs pub) s).1
      = true →
    registered (S k)
      (call env (RegisterDataset n ds dt cd amin amax lat lon ipfs pub) s).2.

(** Bob registers a second dataset after Alice's. *)
Definition two_records : State :=
  (call as_bob sample_register one_record).2.

(** ** Validator: proofs *)

Lemma len_zero_iff (s : string) : len s = 0 ↔ s = EmptyString.
Proof.
  unfold len. destruct s; simpl; split; intros H; try done; lia.
Qed.

Lemma len_ge_1_false (s : string) : (1 <=? len s) = false ↔ s = EmptyString.
Proof.
  rewrite N.leb_gt, <- len_zero_iff. lia.
Qed.

Lemma ipfs_clause_true (s : string) : (len s =? 0) || (1 <=? len s) = true.
Proof.
  destruct (len s =? 0) eqn:E; [done|]. apply N.eqb_neq in E.
  simpl. apply N.leb_le. lia.
Qed.

Lemma is_valid_status_false (st : string) :
  is_valid_status st = false ↔ st ≠ "active" ∧ st ≠ "deprecated".
Proof.
  unfold is_valid_status. rewrite orb_false_iff.
  rewrite !bool_decide_eq_false. done.
Qed.

(** C6. The validator returns false exactly when a text field is empty,
    the collection date is zero, the altitude range is reversed, the
    latitude or longitude is out of range, or the status is neither
    "active" nor "deprecated"; the bounds +/-90_000_000 and +/-180_000_000
    are accepted, one step beyond is rejected, and an empty ipfs hash is
    accepted. *)
Theorem validate_fields_false_iff :
  (∀ n ds dt cdate amin amax lat lon ipfs st,
     validate_fields n ds dt cdate amin amax lat lon ipfs st = false ↔
       (n = EmptyString ∨ ds = EmptyString ∨ dt = EmptyString)
       ∨ cdate = 0
       ∨ amax < amin
       ∨ (lat < -90000000 ∨ 90000000 < lat)%Z
       ∨ (lon < -180000000 ∨ 180000000 < lon)%Z
       ∨ (st ≠ "active" ∧ st ≠ "deprecated"))
  ∧ validate_fields "n" "d" "t" 1 0 0 90000000 0 EmptyString "active" = true
  ∧ validate_fields "n" "d" "t" 1 0 0 90000001 0 EmptyString "active" = false
  ∧ validate_fields "n" "d" "t" 1 0 0 (-90000000) 0 EmptyString "active" = true
  ∧ validate_fields "n" "d" "t" 1 0 0 (-90000001) 0 EmptyString "active" = false
  ∧ validate_fields "n" "d" "t" 1 0 0 0 180000000 EmptyString "active" = true
  ∧ validate_fields "n" "d" "t" 1 0 0 0 180000001 EmptyString "active" = false
  ∧ validate_fields "n" "d" "t" 1 0 0 0 (-180000000) EmptyString "active" = true
  ∧ validate_fields "n" "d" "t" 1 0 0 0 (-180000001) EmptyString "active" = false
  ∧ (∀ n ds dt cdate amin amax lat lon ipfs ipfs' st,
       validate_fields n ds dt cdate amin amax lat lon ipfs st
       = validate_fields n ds dt cdate amin amax lat lon ipfs' st).
Proof.
  split; [|repeat split; try reflexivity].
  - intros. unfold validate_fields.
    rewrite ipfs_clause_true, andb_true_r.
    rewrite !andb_false_iff, !len_ge_1_false, is_valid_status_false.
    rewrite N.ltb_ge, N.leb_gt, !Z.leb_gt.
    change (-90 * 1000000)%Z with (-90000000)%Z.
    change (90 * 1000000)%Z with 90000000%Z.
    change (-180 * 1000000)%Z with (-180000000)%Z.
    change (180 * 1000000)%Z with 180000000%Z.
    split; intros H; repeat destruct H as [H|H]; auto 10; try lia.
  - intros. unfold validate_fields. by rewrite !ipfs_clause_true.
Qed.

(** ** Evaluation lemmas for the helper functions *)

Ltac unfold_body :=
  unfold call, define_public, define_read_only, body_of, returning,
    register_dataset, update_dataset_metadata, freeze_dataset_metadata,
    transfer_dataset, import_dataset, set_contract_admin, set_paused,
    is_dataset_owner, check_not_paused, get_owner_dataset_ids,
    map_get_datasets, map_set_datasets, map_set_datasets_by_owner,
    var_set_dataset_counter, var_set_contract_admin,
    var_set_contract_paused, var_get, asserts, unwrap, unwrap_response,
    uint_add, throw, runtime_error, bind, ret in *.

Lemma fold_remove_fold (l acc : list N) (t : N) :
  fold remove_fold l (acc, t) = (acc ++ filter (λ x, x ≠ t) l, t).
Proof.
  unfold fold. revert acc.
  induction l as [|x l IH]; intros acc; simpl.
  - by rewrite app_nil_r.
  - unfold remove_fold at 2. simpl.
    destruct (bool_decide_reflect (x = t)) as [->|Hne].
    + rewrite IH. by rewrite filter_cons_False by (intros H; by apply H).
    + rewrite IH, filter_cons_True by done.
      by rewrite <- app_assoc.
Qed.

Lemma remove_dataset_from_owner_eq (o : principal) (id : N) (s : State) :
  remove_dataset_from_owner o id s =
    Value true (with_datasets_by_owner s
      (<[o := filter (λ x, x ≠ id) (owner_dataset_ids s o)]>
         (datasets_by_owner s))).
Proof.
  unfold remove_dataset_from_owner. unfold_body.
  by rewrite fold_remove_fold.
Qed.

Lemma as_max_len_Some (l : list N) :
  (length l ≤ 1000)%nat → as_max_len l MAX_OWNER_DATASETS = Some l.
Proof.
  intros H. unfold as_max_len, list_len, MAX_OWNER_DATASETS.
  destruct (N.leb_spec (N.of_nat (length l)) 1000); [done|lia].
Qed.

Lemma as_max_len_None (l : list N) :
  (1000 < length l)%nat → as_max_len l MAX_OWNER_DATASETS = None.
Proof.
  intros H. unfold as_max_len, list_len, MAX_OWNER_DATASETS.
  destruct (N.leb_spec (N.of_nat (length l)) 1000); [lia|done].
Qed.

Lemma add_dataset_to_owner_eq (o : principal) (id : N) (s : State) :
  add_dataset_to_owner o id s =
    if bool_decide (id ∈ owner_dataset_ids s o) then Value (ok true) s
    else if bool_decide (length (owner_dataset_ids s o) < 1000)%nat
         then Value (ok true) (with_datasets_by_owner s
                (<[o := owner_dataset_ids s o ++ [id]]> (datasets_by_owner s)))
         else Value (err ERR_INVALID_PARAMS) s.
Proof.
  unfold add_dataset_to_owner, contains. unfold_body.
  destruct (bool_decide (id ∈ owner_dataset_ids s o)); [done|].
  destruct (bool_decide_reflect (length (owner_dataset_ids s o) < 1000)%nat).
  - rewrite as_max_len_Some; [done|]. rewrite length_app. simpl. lia.
  - rewrite as_max_len_None; [done|]. rewrite length_app. simpl. lia.
Qed.

(** ** Evaluation lemmas for the public functions *)

Lemma call_register env n ds dt cd amin amax lat lon ipfs pub s :
  call env (RegisterDataset n ds dt cd amin amax lat lon ipfs pub) s =
    let id := dataset_counter s + 1 in
    let s1 := with_datasets s
      (<[id := registered_dataset env n ds dt cd amin amax lat lon ipfs pub]>
         (datasets s)) in
    if id <=? UINT_MAX then
      if contract_paused s then (Err ERR_CONTRACT_PAUSED, s)
      else if validate_fields n ds dt cd amin amax lat lon ipfs "active" then
        if bool_decide (id ∈ owner_dataset_ids s (tx_sender env))
        then (Ok (CUint id), with_dataset_counter s1 id)
        else if bool_decide
                  (length (owner_dataset_ids s (tx_sender env)) < 1000)%nat
        then (Ok (CUint id),
              with_dataset_counter
                (with_datasets_by_owner s1 (index_append s (tx_sender env) id))
                id)
        else (Err ERR_INVALID_PARAMS, s)
      else (Err ERR_INVALID_PARAMS, s)
    else (Abort, s).
Proof.
  cbv zeta. unfold_body.
  destruct (dataset_counter s + 1 <=? UINT_MAX); [|done].
  destruct (contract_paused s); [done|]. simpl.
  destruct (validate_fields _ _ _ _ _ _ _ _ _ _); [|done].
  rewrite add_dataset_to_owner_eq. unfold owner_dataset_ids at 1 2. simpl.
  fold (owner_dataset_ids s (tx_sender env)).
  destruct (bool_decide (_ ∈ _)); [done|].
  destruct (bool_decide (_ < _)%nat); done.
Qed.

Lemma call_update env id n ds dt pub s :
  call env (UpdateDatasetMetadata id n ds dt pub) s =
    match datasets s !! id with
    | None => (Err ERR_DATASET_NOT_FOUND, s)
    | Some d =>
        if contract_paused s then (Err ERR_CONTRACT_PAUSED, s)
        else if bool_decide (tx_sender env = owner d) then
          if metadata_frozen d then (Err ERR_METADATA_FROZEN, s)
          else if (1 <=? len n) && (1 <=? len ds) && (1 <=? len dt)
          then (Ok (CBool true),
                with_datasets s
                  (<[id := merge_metadata d n ds dt pub]> (datasets s)))
          else (Err ERR_INVALID_PARAMS, s)
        else (Err ERR_NOT_AUTHORIZED, s)
    end.
Proof.
  unfold_body.
  destruct (datasets s !! id) as [d|] eqn:Hd; [|done].
  destruct (contract_paused s); [done|]. simpl. rewrite Hd.
  destruct (bool_decide (tx_sender env = owner d)); [|done].
  destruct (metadata_frozen d); [done|]. simpl.
  destruct ((1 <=? len n) && (1 <=? len ds) && (1 <=? len dt)); done.
Qed.

Lemma call_freeze env id s :
  call env (FreezeDatasetMetadata id) s =
    match datasets s !! id with
    | None => (Err ERR_DATASET_NOT_FOUND, s)
    | Some d =>
        if contract_paused s then (Err ERR_CONTRACT_PAUSED, s)
        else if bool_decide (tx_sender env = owner d)
        then (Ok (CBool true),
              with_datasets s (<[id := merge_frozen d true]> (datasets s)))
        else (Err ERR_NOT_AUTHORIZED, s)
    end.
Proof.
  unfold_body.
  destruct (datasets s !! id) as [d|] eqn:Hd; [|done].
  destruct (contract_paused s); [done|]. simpl. rewrite Hd.
  destruct (bool_decide (tx_sender env = owner d)); done.
Qed.

Lemma transfer_body env id new_owner s :
  transfer_dataset env id new_owner s =
    match datasets s !! id with
    | None => Thrown ERR_DATASET_NOT_FOUND s
    | Some d =>
        let s1 := with_datasets s
                    (<[id := merge_owner d new_owner]> (datasets s)) in
        let s2 := with_datasets_by_owner s1 (index_remove s (owner d) id) in
        if contract_paused s then Thrown ERR_CONTRACT_PAUSED s
        else if bool_decide (tx_sender env = owner d) then
          if bool_decide (id ∈ owner_dataset_ids s2 new_owner)
          then Value (ok true) s2
          else if bool_decide
                    (length (owner_dataset_ids s2 new_owner) < 1000)%nat
          then Value (ok true)
                 (with_datasets_by_owner s2 (index_append s2 new_owner id))
          else Thrown ERR_INVALID_PARAMS s2
        else Thrown ERR_NOT_AUTHORIZED s
    end.
Proof.
  unfold_body.
  destruct (datasets s !! id) as [d|] eqn:Hd; [|done].
  destruct (contract_paused s); [done|]. simpl. rewrite Hd.
  destruct (bool_decide (tx_sender env = owner d)); [|done].
  rewrite fold_remove_fold, add_dataset_to_owner_eq.
  unfold index_remove, index_append, owner_dataset_ids. simpl.
  destruct (bool_decide (id ∈ _)); [done|].
  destruct (bool_decide (_ < _)%nat); done.
Qed.

Lemma call_transfer env id new_owner s :
  call env (TransferDataset id new_owner) s =
    match datasets s !! id with
    | None => (Err ERR_DATASET_NOT_FOUND, s)
    | Some d =>
        let s1 := with_datasets s
                    (<[id := merge_owner d new_owner]> (datasets s)) in
        let s2 := with_datasets_by_owner s1 (index_remove s (owner d) id) in
        if contract_paused s then (Err ERR_CONTRACT_PAUSED, s)
        else if bool_decide (tx_sender env = owner d) then
          if bool_decide (id ∈ owner_dataset_ids s2 new_owner)
          then (Ok (CBool true), s2)
          else if bool_decide
                    (length (owner_dataset_ids s2 new_owner) < 1000)%nat
          then (Ok (CBool true),
                with_datasets_by_owner s2 (index_append s2 new_owner id))
          else (Err ERR_INVALID_PARAMS, s)
        else (Err ERR_NOT_AUTHORIZED, s)
    end.
Proof.
  unfold call, define_public, body_of, returning, bind, ret.
  rewrite transfer_body.
  destruct (datasets s !! id) as [d|]; [|done]. cbv zeta.
  destruct (contract_paused s); [done|].
  destruct (bool_decide (tx_sender env = owner d)); [|done].
  destruct (bool_decide (id ∈ _)); [done|].
  destruct (bool_decide (_ < _)%nat); done.
Qed.

Lemma call_import env id o n ds dt cd amin amax lat lon ipfs pub fr cat st s :
  call env (ImportDataset id o n ds dt cd amin amax lat lon ipfs pub fr cat st) s =
    let s1 := with_datasets s
      (<[id := imported_dataset o n ds dt cd amin amax lat lon ipfs pub fr cat st]>
         (datasets s)) in
    let bump (t : State) :=
      if dataset_counter s <? id then with_dataset_counter t id else t in
    if bool_decide (tx_sender env = contract_admin s) then
      if contract_paused s then (Err ERR_CONTRACT_PAUSED, s)
      else if 0 <? id then
        match datasets s !! id with
        | Some _ => (Err ERR_DATASET_EXISTS, s)
        | None =>
            if validate_fields n ds dt cd amin amax lat lon ipfs st then
              if bool_decide (id ∈ owner_dataset_ids s o)
              then (Ok (CUint id), bump s1)
              else if bool_decide (length (owner_dataset_ids s o) < 1000)%nat
              then (Ok (CUint id),
                    bump (with_datasets_by_owner s1 (index_append s o id)))
              else (Err ERR_INVALID_PARAMS, s)
            else (Err ERR_INVALID_PARAMS, s)
        end
      else (Err ERR_INVALID_PARAMS, s)
    else (Err ERR_NOT_AUTHORIZED, s).
Proof.
  cbv zeta. unfold_body.
  destruct (bool_decide (tx_sender env = contract_admin s)); [|done].
  destruct (contract_paused s); [done|]. simpl.
  destruct (0 <? id); [|done].
  destruct (datasets s !! id) as [d|] eqn:Hd; [done|]. simpl.
  destruct (validate_fields _ _ _ _ _ _ _ _ _ _); [|done].
  rewrite add_dataset_to_owner_eq. unfold owner_dataset_ids at 1 2. simpl.
  fold (owner_dataset_ids s o).
  destruct (bool_decide (_ ∈ _)).
  - simpl. destruct (dataset_counter s <? id); done.
  - destruct (bool_decide (_ < _)%nat); [|done].
    simpl. destruct (dataset_counter s <? id); done.
Qed.

Lemma call_set_contract_admin env a s :
  call env (SetContractAdmin a) s =
    if bool_decide (tx_sender env = contract_admin s)
    then (Ok (CPrincipal a), with_contract_admin s a)
    else (Err ERR_NOT_AUTHORIZED, s).
Proof.
  unfold_body.
  destruct (bool_decide (tx_sender env = contract_admin s)); done.
Qed.

Lemma call_set_paused env p s :
  call env (SetPaused p) s =
    if bool_decide (tx_sender env = contract_admin s)
    then (Ok (CBool p), with_contract_paused s p)
    else (Err ERR_NOT_AUTHORIZED, s).
Proof.
  unfold_body.
  destruct (bool_decide (tx_sender env = contract_admin s)); done.
Qed.

(** ** The pause gate *)

Lemma reachable_one_record : reachable one_record.
Proof. apply reachable_call, reachable_init. Qed.

Lemma reachable_paused_registry : reachable paused_registry.
Proof. apply reachable_call, reachable_one_record. Qed.

(** C1, counterexample. In a reachable paused registry the admin's own
    [register-dataset] call fails with [ERR-CONTRACT-PAUSED]. *)
Lemma admin_register_while_paused :
  reachable paused_registry
  ∧ is_mutation sample_register = true
  ∧ tx_sender as_alice = contract_admin paused_registry
  ∧ contract_paused paused_registry = true
  ∧ (call as_alice sample_register paused_registry).1 = Err ERR_CONTRACT_PAUSED.
Proof.
  split; [apply reachable_paused_registry|].
  repeat split; vm_compute; reflexivity.
Qed.

(** C1, amended. The pause gate is applied to every caller, the admin
    included: while paused, any caller's register (counter below the uint
    maximum) and any caller's update, freeze or transfer of an existing
    id fail with [ERR-CONTRACT-PAUSED] and change nothing, and so does the
    admin's import (anyone else's import fails with [ERR-NOT-AUTHORIZED]
    first); while not paused no call of any caller fails with
    [ERR-CONTRACT-PAUSED]; [set-paused] is not gated, so the admin can
    always lift the pause. *)
Theorem pause_gate_binds_admin (env : Env) (s : State) :
  (contract_paused s = true →
     (∀ n ds dt cd amin amax lat lon ipfs pub,
        dataset_counter s < UINT_MAX →
        call env (RegisterDataset n ds dt cd amin amax lat lon ipfs pub) s
        = (Err ERR_CONTRACT_PAUSED, s))
     ∧ (∀ id o n ds dt cd amin amax lat lon ipfs pub fr cat st,
        call env
          (ImportDataset id o n ds dt cd amin amax lat lon ipfs pub fr cat st) s
        = if bool_decide (tx_sender env = contract_admin s)
          then (Err ERR_CONTRACT_PAUSED, s)
          else (Err ERR_NOT_AUTHORIZED, s))
     ∧ (∀ id, is_Some (datasets s !! id) →
          (∀ n ds dt pub, call env (UpdateDatasetMetadata id n ds dt pub) s
                          = (Err ERR_CONTRACT_PAUSED, s))
          ∧ call env (FreezeDatasetMetadata id) s = (Err ERR_CONTRACT_PAUSED, s)
          ∧ (∀ new_owner, call env (TransferDataset id new_owner) s
                          = (Err ERR_CONTRACT_PAUSED, s)))
     ∧ (tx_sender env = contract_admin s →
        call env (SetPaused false) s
        = (Ok (CBool false), with_contract_paused s false)))
  ∧ (contract_paused s = false →
     ∀ c, (call env c s).1 ≠ Err ERR_CONTRACT_PAUSED).
Proof.
  split.
  - intros Hp. repeat split.
    + intros. rewrite call_register. cbv zeta.
      destruct (N.leb_spec (dataset_counter s + 1) UINT_MAX); [|lia].
      by rewrite Hp.
    + intros. rewrite call_import. cbv zeta.
      destruct (bool_decide (tx_sender env = contract_admin s)); [|done].
      by rewrite Hp.
    + intros. rewrite call_update. destruct H as [d ->]. by rewrite Hp.
    + rewrite call_freeze. destruct H as [d ->]. by rewrite Hp.
    + intros. rewrite call_transfer. destruct H as [d ->]. cbv zeta.
      by rewrite Hp.
    + intros Hadmin. rewrite call_set_paused.
      by rewrite bool_decide_eq_true_2.
  - intros Hp c. destruct c.
    + rewrite call_register. cbv zeta. rewrite Hp.
      repeat case_match; simpl; discriminate.
    + rewrite call_update. rewrite Hp.
      repeat case_match; simpl; discriminate.
    + rewrite call_freeze. rewrite Hp.
      repeat case_match; simpl; discriminate.
    + rewrite call_transfer. cbv zeta. rewrite Hp.
      repeat case_match; simpl; discriminate.
    + rewrite call_import. cbv zeta. rewrite Hp.
      repeat case_match; simpl; discriminate.
    + rewrite call_set_contract_admin.
      repeat case_match; simpl; discriminate.
    + rewrite call_set_paused.
      repeat case_match; simpl; discriminate.
Qed.

Lemma pause_gate_binds_admin_witness :
  tx_sender as_alice = contract_admin paused_registry
  ∧ call as_alice (FreezeDatasetMetadata 1) paused_registry
    = (Err ERR_CONTRACT_PAUSED, paused_registry)
  ∧ call as_bob (FreezeDatasetMetadata 1) paused_registry
    = (Err ERR_CONTRACT_PAUSED, paused_registry).
Proof.
  split; [vm_compute; reflexivity|]. split.
  - refine (proj1 (proj2 (proj1 (proj2 (proj2 (proj1
      (pause_gate_binds_admin as_alice paused_registry) _))) 1 _))).
    + vm_compute; reflexivity.
    + vm_compute. eexists; reflexivity.
  - refine (proj1 (proj2 (proj1 (proj2 (proj2 (proj1
      (pause_gate_binds_admin as_bob paused_registry) _))) 1 _))).
    + vm_compute; reflexivity.
    + vm_compute. eexists; reflexivity.
Defined.

(** C10. For an id absent from the record store, update, freeze and
    transfer return [ERR-DATASET-NOT-FOUND] in a paused registry: the
    existence check comes before the pause gate. *)
Theorem not_found_precedes_pause (env : Env) (s : State) (id : N) :
  datasets s !! id = None →
  contract_paused s = true →
  (∀ n ds dt pub, call env (UpdateDatasetMetadata id n ds dt pub) s
                  = (Err ERR_DATASET_NOT_FOUND, s))
  ∧ call env (FreezeDatasetMetadata id) s = (Err ERR_DATASET_NOT_FOUND, s)
  ∧ (∀ new_owner, call env (TransferDataset id new_owner) s
                  = (Err ERR_DATASET_NOT_FOUND, s))
  ∧ ERR_DATASET_NOT_FOUND ≠ ERR_CONTRACT_PAUSED.
Proof.
  intros Hnone _. repeat split.
  - intros. by rewrite call_update, Hnone.
  - by rewrite call_freeze, Hnone.
  - intros. by rewrite call_transfer, Hnone.
  - discriminate.
Qed.

Lemma not_found_precedes_pause_witness :
  call as_bob (FreezeDatasetMetadata 2) paused_registry
  = (Err ERR_DATASET_NOT_FOUND, paused_registry).
Proof.
  refine (proj1 (proj2 (not_found_precedes_pause as_bob paused_registry 2 _ _)));
    vm_compute; reflexivity.
Defined.

(** ** Atomicity *)

Lemma define_public_rollback {A} (body : M (response A)) (s : State) :
  is_Ok (define_public body s).1 = false → (define_public body s).2 = s.
Proof.
  unfold define_public.
  destruct (body s) as [[a|e] s'|e s'|]; simpl; done.
Qed.

(** C2. A call that does not return [(ok ...)] leaves the whole registry
    state as it was.  In particular a transfer that fails on the capacity
    of the new owner's index returns [ERR-INVALID-PARAMS] and keeps the
    record's owner and the old owner's index, although the body had
    already written both before it failed. *)
Theorem error_leaves_state_unchanged (env : Env) (c : Call) (s : State) :
  is_Ok (call env c s).1 = false →
  (call env c s).2 = s
  ∧ (∀ id new_owner d,
       c = TransferDataset id new_owner →
       datasets s !! id = Some d →
       tx_sender env = owner d →
       contract_paused s = false →
       new_owner ≠ owner d →
       id ∉ owner_dataset_ids s new_owner →
       (1000 ≤ length (owner_dataset_ids s new_owner))%nat →
       (call env c s).1 = Err ERR_INVALID_PARAMS
       ∧ datasets (call env c s).2 !! id = Some d
       ∧ owner_dataset_ids (call env c s).2 (owner d)
         = owner_dataset_ids s (owner d)
       ∧ ∃ s', transfer_dataset env id new_owner s = Thrown ERR_INVALID_PARAMS s'
               ∧ datasets s' !! id = Some (merge_owner d new_owner)
               ∧ owner_dataset_ids s' (owner d)
                 = filter (λ x, x ≠ id) (owner_dataset_ids s (owner d))).
Proof.
  intros Hfail.
  assert (Hsame : (call env c s).2 = s) by by apply define_public_rollback.
  split; [done|].
  intros id new_owner d -> Hd Hsender Hpaused Hnew Hnotin Hfull.
  rewrite Hsame. split; [|split; [done|split; [done|]]].
  - rewrite call_transfer, Hd. cbv zeta. rewrite Hpaused.
    rewrite bool_decide_eq_true_2 by done.
    unfold owner_dataset_ids, index_remove. simpl.
    rewrite lookup_insert_ne by done.
    fold (owner_dataset_ids s new_owner).
    rewrite bool_decide_eq_false_2 by done.
    rewrite bool_decide_eq_false_2 by lia. done.
  - eexists. rewrite transfer_body, Hd. cbv zeta. rewrite Hpaused.
    rewrite bool_decide_eq_true_2 by done.
    unfold owner_dataset_ids, index_remove. simpl.
    rewrite lookup_insert_ne by done.
    fold (owner_dataset_ids s new_owner).
    rewrite bool_decide_eq_false_2 by done.
    rewrite bool_decide_eq_false_2 by lia.
    split; [reflexivity|]. simpl.
    by rewrite !lookup_insert_eq.
Qed.

Lemma error_leaves_state_unchanged_witness :
  (call as_alice (TransferDataset 1 bob) bob_is_full).1 = Err ERR_INVALID_PARAMS
  ∧ (call as_alice (TransferDataset 1 bob) bob_is_full).2 = bob_is_full.
Proof.
  split; [vm_compute; reflexivity|].
  refine (proj1 (error_leaves_state_unchanged as_alice
                   (TransferDataset 1 bob) bob_is_full _)).
  vm_compute; reflexivity.
Defined.

(** ** Metadata update *)

(** C8, counterexample. Alice is the admin and the owner of record 1,
    which is not frozen, and she submits non-empty texts: none of the
    claim's failure cases applies, and the admin is the caller the
    specification exempts from the pause gate, yet in the paused
    registry her update fails with [ERR-CONTRACT-PAUSED] and the record
    keeps its old name. *)
Lemma update_by_admin_owner_while_paused :
  tx_sender as_alice = contract_admin paused_registry
  ∧ contract_paused paused_registry = true
  ∧ (∃ d, datasets paused_registry !! 1 = Some d
          ∧ tx_sender as_alice = owner d ∧ metadata_frozen d = false)
  ∧ call as_alice (UpdateDatasetMetadata 1 "n" "d" "t" true) paused_registry
    = (Err ERR_CONTRACT_PAUSED, paused_registry)
  ∧ is_Ok (call as_alice (UpdateDatasetMetadata 1 "n" "d" "t" true)
             paused_registry).1 = false
  ∧ (name <$> datasets
       (call as_alice (UpdateDatasetMetadata 1 "n" "d" "t" true)
          paused_registry).2 !! 1) = Some "Temperature Data".
Proof.
  split; [vm_compute; reflexivity|]. split; [vm_compute; reflexivity|].
  split.
  { eexists. split; [vm_compute; reflexivity|]. split; vm_compute; reflexivity. }
  repeat split; vm_compute; reflexivity.
Qed.

(** C8, amended. Update fails with [ERR-DATASET-NOT-FOUND] when the id is
    absent.  For an existing id in a registry that is not paused it fails
    with [ERR-NOT-AUTHORIZED] when the caller is not the owner, with
    [ERR-METADATA-FROZEN] when the owner's record is frozen, whatever the
    new values, and with [ERR-INVALID-PARAMS] when a text field is empty;
    otherwise it succeeds and replaces name, description, data type and
    the public flag, every other field, every other record and the rest
    of the state staying as they were.  In a paused registry it fails with
    [ERR-CONTRACT-PAUSED] for every existing id and every caller, the
    admin included. *)
Theorem update_metadata_spec (env : Env) (s : State) (id : N)
    (n ds dt : string) (pub : bool) :
  let r := call env (UpdateDatasetMetadata id n ds dt pub) s in
  (datasets s !! id = None → r = (Err ERR_DATASET_NOT_FOUND, s))
  ∧ (∀ d, datasets s !! id = Some d →
       (contract_paused s = true → r = (Err ERR_CONTRACT_PAUSED, s))
       ∧ (contract_paused s = false →
            (tx_sender env ≠ owner d → r = (Err ERR_NOT_AUTHORIZED, s))
            ∧ (tx_sender env = owner d → metadata_frozen d = true →
                 r = (Err ERR_METADATA_FROZEN, s))
            ∧ (tx_sender env = owner d → metadata_frozen d = false →
                 n = EmptyString ∨ ds = EmptyString ∨ dt = EmptyString →
                 r = (Err ERR_INVALID_PARAMS, s))
            ∧ (tx_sender env = owner d → metadata_frozen d = false →
                 n ≠ EmptyString → ds ≠ EmptyString → dt ≠ EmptyString →
                 r.1 = Ok (CBool true)))
       ∧ (is_Ok r.1 = true →
            ∃ d', datasets r.2 !! id = Some d'
              ∧ name d' = n ∧ description d' = ds ∧ data_type d' = dt
              ∧ is_public d' = pub
              ∧ owner d' = owner d
              ∧ collection_date d' = collection_date d
              ∧ altitude_min d' = altitude_min d
              ∧ altitude_max d' = altitude_max d
              ∧ latitude d' = latitude d
              ∧ longitude d' = longitude d
              ∧ ipfs_hash d' = ipfs_hash d
              ∧ metadata_frozen d' = metadata_frozen d
              ∧ created_at d' = created_at d
              ∧ status d' = status d
              ∧ (∀ id', id' ≠ id → datasets r.2 !! id' = datasets s !! id')
              ∧ datasets_by_owner r.2 = datasets_by_owner s
              ∧ dataset_counter r.2 = dataset_counter s
              ∧ contract_admin r.2 = contract_admin s
              ∧ contract_paused r.2 = contract_paused s)).
Proof.
  intros r. subst r. rewrite call_update. split.
  - by intros ->.
  - intros d ->. split; [by intros ->|]. split.
    + intros ->. repeat split.
      * intros Hne. by rewrite bool_decide_eq_false_2.
      * intros He ->. by rewrite bool_decide_eq_true_2.
      * intros He -> Hempty. rewrite bool_decide_eq_true_2 by done.
        assert ((1 <=? len n) && (1 <=? len ds) && (1 <=? len dt) = false)
          as ->; [|done].
        rewrite !andb_false_iff, !len_ge_1_false. tauto.
      * intros He -> Hn Hds Hdt. rewrite bool_decide_eq_true_2 by done.
        assert ((1 <=? len n) && (1 <=? len ds) && (1 <=? len dt) = true)
          as ->; [|done].
        rewrite !andb_true_iff.
        repeat split; apply not_false_iff_true; by rewrite len_ge_1_false.
    + intros Hok. repeat case_match; simpl in Hok; try discriminate.
      exists (merge_metadata d n ds dt pub). simpl.
      rewrite lookup_insert_eq. repeat split; try done.
      intros id' Hne. by rewrite lookup_insert_ne.
Qed.

Lemma update_metadata_spec_witness :
  ∃ d', datasets (call as_alice (UpdateDatasetMetadata 1 "n" "d" "t" false)
                    one_record).2 !! 1 = Some d'
        ∧ name d' = "n".
Proof.
  destruct (proj2 (update_metadata_spec as_alice one_record 1 "n" "d" "t" false))
    with (d := registered_dataset as_alice "Temperature Data"
                 "Atmospheric dataset" "temperature" 1640995200 1000 5000
                 40000000 (-74000000) "QmTestHash123" true)
    as (_ & _ & H).
  - vm_compute; reflexivity.
  - destruct H as (d' & Hd' & Hn & _); [vm_compute; reflexivity|].
    exists d'. split; assumption.
Defined.

(** ** Admin import *)

(** C7, counterexample. In a paused registry the admin's import of id 0
    fails with [ERR-CONTRACT-PAUSED], not with [ERR-INVALID-PARAMS]. *)
Lemma admin_import_zero_while_paused :
  tx_sender as_alice = contract_admin paused_registry
  ∧ (call as_alice (sample_import 0 carol) paused_registry).1
    = Err ERR_CONTRACT_PAUSED
  ∧ ERR_CONTRACT_PAUSED ≠ ERR_INVALID_PARAMS.
Proof.
  split; [vm_compute; reflexivity|].
  split; [vm_compute; reflexivity|discriminate].
Qed.

(** C7, amended. For an admin-called import in a registry that is not
    paused: it fails with [ERR-INVALID-PARAMS] when the id is 0, with
    [ERR-DATASET-EXISTS] when the positive id is already present, and with
    [ERR-INVALID-PARAMS] when the id is positive and absent and the fields
    fail validation; when it succeeds it returns the id, the record stored
    at the id carries the supplied fields verbatim (created-at, status and
    frozen flag included), the id is in the owner's index (appended at the
    end when it was not there), other records and other owners' indexes
    are as before, and the counter is [max counter id].  In a paused
    registry the admin's import fails with [ERR-CONTRACT-PAUSED]. *)
Theorem import_spec (env : Env) (s : State) (id : N) (o : principal)
    (n ds dt : string) (cd amin amax : N) (lat lon : Z) (ipfs : string)
    (pub fr : bool) (cat : N) (st : string) :
  tx_sender env = contract_admin s →
  let r := call env
    (ImportDataset id o n ds dt cd amin amax lat lon ipfs pub fr cat st) s in
  (contract_paused s = true → r = (Err ERR_CONTRACT_PAUSED, s))
  ∧ (contract_paused s = false →
       (id = 0 → r = (Err ERR_INVALID_PARAMS, s))
       ∧ (0 < id → is_Some (datasets s !! id) →
            r = (Err ERR_DATASET_EXISTS, s))
       ∧ (0 < id → datasets s !! id = None →
            validate_fields n ds dt cd amin amax lat lon ipfs st = false →
            r = (Err ERR_INVALID_PARAMS, s))
       ∧ (0 < id → datasets s !! id = None →
            validate_fields n ds dt cd amin amax lat lon ipfs st = true →
            id ∈ owner_dataset_ids s o
            ∨ (length (owner_dataset_ids s o) < 1000)%nat →
            r.1 = Ok (CUint id)))
  ∧ (is_Ok r.1 = true →
       r.1 = Ok (CUint id)
       ∧ datasets r.2 !! id
         = Some {| owner := o; name := n; description := ds; data_type := dt;
                   collection_date := cd; altitude_min := amin;
                   altitude_max := amax; latitude := lat; longitude := lon;
                   ipfs_hash := ipfs; is_public := pub;
                   metadata_frozen := fr; created_at := cat; status := st |}
       ∧ (∀ id', id' ≠ id → datasets r.2 !! id' = datasets s !! id')
       ∧ id ∈ owner_dataset_ids r.2 o
       ∧ (id ∉ owner_dataset_ids s o →
            owner_dataset_ids r.2 o = owner_dataset_ids s o ++ [id])
       ∧ (id ∈ owner_dataset_ids s o →
            owner_dataset_ids r.2 o = owner_dataset_ids s o)
       ∧ (∀ o', o' ≠ o → owner_dataset_ids r.2 o' = owner_dataset_ids s o')
       ∧ dataset_counter r.2 = N.max (dataset_counter s) id
       ∧ contract_admin r.2 = contract_admin s
       ∧ contract_paused r.2 = contract_paused s).
Proof.
  intros Hadmin r. subst r. rewrite call_import. cbv zeta.
  rewrite bool_decide_eq_true_2 by done.
  split; [by intros ->|]. split.
  - intros ->. repeat split.
    + by intros ->.
    + intros Hpos [d ->]. apply N.ltb_lt in Hpos. by rewrite Hpos.
    + intros Hpos -> ->. apply N.ltb_lt in Hpos. by rewrite Hpos.
    + intros Hpos -> -> Hroom. apply N.ltb_lt in Hpos. rewrite Hpos.
      destruct (bool_decide_reflect (id ∈ owner_dataset_ids s o)); [done|].
      destruct Hroom as [?|Hlt]; [done|].
      by rewrite bool_decide_eq_true_2.
  - assert (Hbump : ∀ t, dataset_counter
               (if dataset_counter s <? id then with_dataset_counter t id
                else t)
             = if dataset_counter s <? id then id else dataset_counter t).
    { intros t. by destruct (dataset_counter s <? id). }
    assert (Hmax : (if dataset_counter s <? id then id else dataset_counter s)
                   = N.max (dataset_counter s) id).
    { destruct (N.ltb_spec (dataset_counter s) id); lia. }
    intros Hok.
    destruct (contract_paused s) eqn:Hp; [done|].
    destruct (0 <? id); [|done].
    destruct (datasets s !! id) eqn:Hd; [done|].
    destruct (validate_fields _ _ _ _ _ _ _ _ _ _); [|done].
    destruct (bool_decide_reflect (id ∈ owner_dataset_ids s o)) as [Hin|Hin].
    + simpl. rewrite Hbump, <- Hmax.
      destruct (dataset_counter s <? id); simpl;
        rewrite lookup_insert_eq; repeat split; try done;
        by (intros; rewrite lookup_insert_ne).
    + destruct (bool_decide (_ < _)%nat); [|done].
      simpl. rewrite Hbump, <- Hmax.
      destruct (dataset_counter s <? id); simpl;
        unfold owner_dataset_ids, index_append; simpl;
        rewrite !lookup_insert_eq; simpl;
        fold (owner_dataset_ids s o);
        (repeat split; try done;
         first [ by (intros; rewrite lookup_insert_ne) | set_solver ]).
Qed.

Lemma import_spec_witness :
  dataset_counter (call as_alice (sample_import 50 carol) one_record).2 = 50.
Proof.
  refine (proj1 (proj2 (proj2 (proj2 (proj2 (proj2 (proj2 (proj2 (proj2 (proj2
    (import_spec as_alice one_record 50 carol "Imported" "Backfilled dataset"
       "pressure" 1640995200 0 100 0 0 EmptyString false true 42 "deprecated" _)) _)))))))));
    vm_compute; reflexivity.
Defined.

(** ** Owner index *)

(** C9. Adding an id that is already in the owner's sequence succeeds and
    changes nothing; adding an absent id appends it at the end and leaves
    the other owners alone; the only failure is the capacity one, for an
    absent id when the sequence (at most 1000 long by its type) already
    holds 1000 entries, and it is reported with [ERR-INVALID-PARAMS].
    Hence a second add of the same id is a no-op and a duplicate-free
    sequence stays duplicate-free. *)
Theorem add_dataset_to_owner_idempotent (o : principal) (id : N) (s : State) :
  (id ∈ owner_dataset_ids s o →
     add_dataset_to_owner o id s = Value (ok true) s)
  ∧ (id ∉ owner_dataset_ids s o →
     (length (owner_dataset_ids s o) < 1000)%nat →
     ∃ s', add_dataset_to_owner o id s = Value (ok true) s'
       ∧ owner_dataset_ids s' o = owner_dataset_ids s o ++ [id]
       ∧ (∀ o', o' ≠ o → owner_dataset_ids s' o' = owner_dataset_ids s o')
       ∧ datasets s' = datasets s
       ∧ dataset_counter s' = dataset_counter s
       ∧ contract_admin s' = contract_admin s
       ∧ contract_paused s' = contract_paused s)
  ∧ (id ∉ owner_dataset_ids s o →
     (1000 ≤ length (owner_dataset_ids s o))%nat →
     add_dataset_to_owner o id s = Value (err ERR_INVALID_PARAMS) s)
  ∧ (∀ e s', add_dataset_to_owner o id s = Value (err e) s' →
     e = ERR_INVALID_PARAMS ∧ s' = s
     ∧ (id ∉ owner_dataset_ids s o)
     ∧ ((length (owner_dataset_ids s o) ≤ 1000)%nat →
        length (owner_dataset_ids s o) = 1000%nat))
  ∧ (∀ r s1, add_dataset_to_owner o id s = Value (ok r) s1 →
     add_dataset_to_owner o id s1 = Value (ok true) s1
     ∧ (NoDup (owner_dataset_ids s o) → NoDup (owner_dataset_ids s1 o)))
  ∧ (∀ e s', add_dataset_to_owner o id s ≠ Thrown e s')
  ∧ (add_dataset_to_owner o id s ≠ RuntimeError).
Proof.
  rewrite add_dataset_to_owner_eq.
  destruct (bool_decide_reflect (id ∈ owner_dataset_ids s o)) as [Hin|Hin].
  - repeat split; intros; simplify_eq; try done.
    rewrite add_dataset_to_owner_eq. by rewrite bool_decide_eq_true_2.
  - destruct (bool_decide_reflect
                (length (owner_dataset_ids s o) < 1000)%nat) as [Hlt|Hge].
    + assert (Hnew : owner_dataset_ids
                (with_datasets_by_owner s
                   (<[o:=owner_dataset_ids s o ++ [id]]> (datasets_by_owner s))) o
              = owner_dataset_ids s o ++ [id]).
      { unfold owner_dataset_ids. simpl. by rewrite lookup_insert_eq. }
      repeat split; intros; simplify_eq; try done; try lia.
      * eexists. split; [reflexivity|].
        split; [done|]. repeat split.
        intros o' Hne. unfold owner_dataset_ids. simpl.
        by rewrite lookup_insert_ne.
      * rewrite add_dataset_to_owner_eq, Hnew.
        rewrite bool_decide_eq_true_2; [done|set_solver].
      * rewrite Hnew.
        apply NoDup_app. repeat split; [done| |apply NoDup_singleton].
        intros x Hx Hx'. apply list_elem_of_singleton in Hx'. by subst.
    + repeat split; intros; simplify_eq; try done; lia.
Qed.

Lemma add_dataset_to_owner_idempotent_witness :
  add_dataset_to_owner alice 1 one_record = Value (ok true) one_record.
Proof.
  refine (proj1 (add_dataset_to_owner_idempotent alice 1 one_record) _).
  vm_compute. apply list_elem_of_here.
Defined.

(** ** Registry invariants *)

Lemma ids_insert_eq (m : gmap string (list N)) (o : principal) (l : list N) :
  default [] (<[o := l]> m !! o) = l.
Proof. by rewrite lookup_insert_eq. Qed.

Lemma ids_insert_ne (m : gmap string (list N)) (o o' : principal) (l : list N) :
  o ≠ o' → default [] (<[o := l]> m !! o') = default [] (m !! o').
Proof. intros. by rewrite lookup_insert_ne. Qed.

Lemma registry_inv_init (deployer : principal) :
  registry_inv (initial_state deployer).
Proof.
  split; unfold owner_dataset_ids; simpl.
  - intros id d H. by rewrite lookup_empty in H.
  - intros o id H. rewrite lookup_empty in H. simpl in H. set_solver.
  - intros id d H. by rewrite lookup_empty in H.
  - intros o. rewrite lookup_empty. simpl. apply NoDup_nil_2.
Qed.

(** An indexed id has a record, so a free id is in nobody's index. *)
Lemma free_id_not_indexed (s : State) (id : N) (o : principal) :
  registry_inv s → datasets s !! id = None → id ∉ owner_dataset_ids s o.
Proof.
  intros Hinv Hnone Hin.
  destruct (inv_indexed s Hinv o id Hin) as (d & Hd & _). congruence.
Qed.

(** A record is indexed under its owner only. *)
Lemma indexed_owner (s : State) (id : N) (d : Dataset) (o : principal) :
  registry_inv s → datasets s !! id = Some d →
  id ∈ owner_dataset_ids s o → o = owner d.
Proof.
  intros Hinv Hd Hin.
  destruct (inv_indexed s Hinv o id Hin) as (d' & Hd' & <-). congruence.
Qed.

(** Replacing a record by one with the same owner. *)
Lemma registry_inv_replace (s t : State) (id : N) (d d' : Dataset) :
  registry_inv s →
  datasets s !! id = Some d →
  owner d' = owner d →
  datasets t = <[id := d']> (datasets s) →
  datasets_by_owner t = datasets_by_owner s →
  dataset_counter t = dataset_counter s →
  registry_inv t.
Proof.
  intros Hinv Hd Ho Hds Hby Hc.
  split; unfold owner_dataset_ids; rewrite ?Hds, ?Hby, ?Hc.
  - intros x dx Hx. destruct (decide (x = id)) as [->|Hne].
    + by eapply inv_bounded.
    + rewrite lookup_insert_ne in Hx by done. by eapply inv_bounded.
  - intros o x Hin. destruct (decide (x = id)) as [->|Hne].
    + exists d'. rewrite lookup_insert_eq. split; [done|].
      rewrite Ho. symmetry. by eapply indexed_owner.
    + rewrite lookup_insert_ne by done. by apply inv_indexed.
  - intros x dx Hx. destruct (decide (x = id)) as [->|Hne].
    + rewrite lookup_insert_eq in Hx. injection Hx as <-. rewrite Ho.
      by apply (inv_owned s Hinv).
    + rewrite lookup_insert_ne in Hx by done. by apply (inv_owned s Hinv).
  - apply (inv_nodup s Hinv).
Qed.

(** Creating a record at a free id and appending the id to its owner's
    index. *)
Lemma registry_inv_create (s t : State) (id : N) (d : Dataset) :
  registry_inv s →
  datasets s !! id = None →
  datasets t = <[id := d]> (datasets s) →
  datasets_by_owner t = index_append s (owner d) id →
  dataset_counter s ≤ dataset_counter t →
  id ≤ dataset_counter t →
  registry_inv t.
Proof.
  intros Hinv Hnone Hds Hby Hc Hid.
  pose proof (free_id_not_indexed s id (owner d) Hinv Hnone) as Hfresh.
  split; unfold owner_dataset_ids, index_append; rewrite ?Hds, ?Hby.
  - intros x dx Hx. destruct (decide (x = id)) as [->|Hne]; [done|].
    rewrite lookup_insert_ne in Hx by done.
    pose proof (inv_bounded s Hinv x dx Hx). lia.
  - intros o x. unfold index_append.
    destruct (decide (o = owner d)) as [->|Hno].
    + rewrite ids_insert_eq. intros [Hin| ->%list_elem_of_singleton]%elem_of_app.
      * assert (x ≠ id) by (intros ->; done).
        rewrite lookup_insert_ne by done. by apply inv_indexed.
      * exists d. by rewrite lookup_insert_eq.
    + rewrite ids_insert_ne by done. intros Hin.
      assert (x ≠ id).
      { intros ->. by apply (free_id_not_indexed s id o Hinv Hnone). }
      rewrite lookup_insert_ne by done. by apply inv_indexed.
  - intros x dx Hx. unfold index_append.
    destruct (decide (x = id)) as [->|Hne].
    + rewrite lookup_insert_eq in Hx. injection Hx as <-.
      rewrite ids_insert_eq. apply elem_of_app. right.
      by apply list_elem_of_singleton.
    + rewrite lookup_insert_ne in Hx by done.
      pose proof (inv_owned s Hinv x dx Hx) as Hin.
      destruct (decide (owner dx = owner d)) as [He|Hno].
      * rewrite He, ids_insert_eq. apply elem_of_app. left. by rewrite <- He.
      * by rewrite ids_insert_ne.
  - intros o. unfold index_append.
    destruct (decide (o = owner d)) as [->|Hno].
    + rewrite ids_insert_eq. apply NoDup_app.
      split; [apply (inv_nodup s Hinv)|]. split; [|apply NoDup_singleton].
      intros x Hin Hx. apply list_elem_of_singleton in Hx. by subst.
    + rewrite ids_insert_ne by done. apply (inv_nodup s Hinv).
Qed.

Lemma ids_index_transfer (s : State) (old_owner new_owner o : principal) (id : N) :
  default [] (index_transfer s old_owner new_owner id !! o) =
    if decide (o = new_owner) then
      (if decide (new_owner = old_owner)
       then filter (λ x, x ≠ id) (owner_dataset_ids s old_owner)
       else owner_dataset_ids s new_owner) ++ [id]
    else if decide (o = old_owner)
         then filter (λ x, x ≠ id) (owner_dataset_ids s old_owner)
         else owner_dataset_ids s o.
Proof.
  unfold index_transfer, index_remove, owner_dataset_ids.
  destruct (decide (o = new_owner)) as [->|Hn].
  - rewrite ids_insert_eq.
    destruct (decide (new_owner = old_owner)) as [->|Hno].
    + by rewrite ids_insert_eq.
    + by rewrite ids_insert_ne.
  - rewrite ids_insert_ne by done.
    destruct (decide (o = old_owner)) as [->|Ho].
    + by rewrite ids_insert_eq.
    + by rewrite ids_insert_ne.
Qed.

(** Moving a record to a new owner together with its index entry. *)
Lemma registry_inv_transfer (s t : State) (id : N) (d : Dataset)
    (new_owner : principal) :
  registry_inv s →
  datasets s !! id = Some d →
  datasets t = <[id := merge_owner d new_owner]> (datasets s) →
  datasets_by_owner t = index_transfer s (owner d) new_owner id →
  dataset_counter t = dataset_counter s →
  registry_inv t.
Proof.
  intros Hinv Hd Hds Hby Hc.
  assert (Hrec : ∀ x dx, x ≠ id →
            (<[id := merge_owner d new_owner]> (datasets s) !! x = Some dx
             ↔ datasets s !! x = Some dx)).
  { intros x dx Hne. by rewrite lookup_insert_ne. }
  assert (Hfilter : ∀ x o, x ∈ filter (λ y, y ≠ id) (owner_dataset_ids s o)
                           ↔ x ≠ id ∧ x ∈ owner_dataset_ids s o).
  { intros x o. apply (list_elem_of_filter (λ y, y ≠ id)). }
  split; unfold owner_dataset_ids; rewrite ?Hds, ?Hby, ?Hc.
  - intros x dx Hx. destruct (decide (x = id)) as [->|Hne].
    + by eapply inv_bounded.
    + apply Hrec in Hx; [|done]. by eapply inv_bounded.
  - intros o x. rewrite ids_index_transfer.
    destruct (decide (o = new_owner)) as [->|Hn].
    + intros [Hin|Hin]%elem_of_app.
      * assert (x ≠ id ∧ x ∈ owner_dataset_ids s new_owner) as [Hne Hin'].
        { destruct (decide (new_owner = owner d)) as [->|Hno].
          - by apply Hfilter.
          - split; [|done]. intros ->. apply Hno.
            by eapply indexed_owner. }
        destruct (inv_indexed s Hinv _ _ Hin') as (dx & Hdx & Ho).
        exists dx. by rewrite lookup_insert_ne.
      * apply list_elem_of_singleton in Hin as ->.
        exists (merge_owner d new_owner). by rewrite lookup_insert_eq.
    + destruct (decide (o = owner d)) as [->|Ho].
      * intros [Hne Hin]%Hfilter.
        destruct (inv_indexed s Hinv _ _ Hin) as (dx & Hdx & Hox).
        exists dx. by rewrite lookup_insert_ne.
      * intros Hin.
        assert (x ≠ id).
        { intros ->. apply Ho. by eapply indexed_owner. }
        destruct (inv_indexed s Hinv _ _ Hin) as (dx & Hdx & Hox).
        exists dx. by rewrite lookup_insert_ne.
  - intros x dx Hx. rewrite ids_index_transfer.
    destruct (decide (x = id)) as [->|Hne].
    + rewrite lookup_insert_eq in Hx. injection Hx as <-. simpl.
      rewrite decide_True by done.
      apply elem_of_app. right. by apply list_elem_of_singleton.
    + apply Hrec in Hx; [|done].
      pose proof (inv_owned s Hinv x dx Hx) as Hin.
      destruct (decide (owner dx = new_owner)) as [Hn|Hn].
      * apply elem_of_app. left.
        destruct (decide (new_owner = owner d)) as [Ho|Ho].
        -- apply Hfilter. split; [done|]. by rewrite <- Ho, <- Hn.
        -- by rewrite <- Hn.
      * destruct (decide (owner dx = owner d)) as [Ho|Ho]; [|done].
        apply Hfilter. split; [done|]. by rewrite <- Ho.
  - intros o. rewrite ids_index_transfer.
    destruct (decide (o = new_owner)) as [->|Hn].
    + apply NoDup_app. split; [|split; [|apply NoDup_singleton]].
      * destruct (decide (new_owner = owner d)).
        -- apply NoDup_filter, (inv_nodup s Hinv).
        -- apply (inv_nodup s Hinv).
      * intros x Hin Hx. apply list_elem_of_singleton in Hx as ->.
        destruct (decide (new_owner = owner d)) as [->|Hno].
        -- apply Hfilter in Hin as [Hne _]. done.
        -- apply Hno. by eapply indexed_owner.
    + destruct (decide (o = owner d)).
      * apply NoDup_filter, (inv_nodup s Hinv).
      * apply (inv_nodup s Hinv).
Qed.

Lemma registry_inv_call (env : Env) (c : Call) (s : State) :
  registry_inv s → registry_inv (call env c s).2.
Proof.
  intros Hinv.
  destruct c as [n ds dt cd amin amax lat lon ipfs pub
                |id n ds dt pub
                |id
                |id new_owner
                |id o n ds dt cd amin amax lat lon ipfs pub fr cat st
                |a
                |p].
  - (* register *)
    rewrite call_register. cbv zeta.
    assert (Hfree : datasets s !! (dataset_counter s + 1) = None).
    { destruct (datasets s !! (dataset_counter s + 1)) as [d|] eqn:Hd; [|done].
      pose proof (inv_bounded s Hinv _ _ Hd). lia. }
    destruct (_ <=? UINT_MAX); [|done].
    destruct (contract_paused s); [done|].
    destruct (validate_fields _ _ _ _ _ _ _ _ _ _); [|done].
    destruct (bool_decide_reflect
                (dataset_counter s + 1 ∈ owner_dataset_ids s (tx_sender env)))
      as [Hin|Hin].
    { by apply (free_id_not_indexed s _ _ Hinv Hfree) in Hin. }
    destruct (bool_decide (_ < _)%nat); [|done].
    eapply registry_inv_create; [done|exact Hfree|reflexivity|reflexivity|..];
      simpl; lia.
  - (* update *)
    rewrite call_update.
    destruct (datasets s !! id) as [d|] eqn:Hd; [|done].
    repeat case_match; try done.
    eapply registry_inv_replace; [done|exact Hd| |reflexivity..]. done.
  - (* freeze *)
    rewrite call_freeze.
    destruct (datasets s !! id) as [d|] eqn:Hd; [|done].
    repeat case_match; try done.
    eapply registry_inv_replace; [done|exact Hd| |reflexivity..]. done.
  - (* transfer *)
    rewrite call_transfer.
    destruct (datasets s !! id) as [d|] eqn:Hd; [|done]. cbv zeta.
    destruct (contract_paused s); [done|].
    destruct (bool_decide (tx_sender env = owner d)); [|done].
    match goal with
    | |- context [bool_decide (id ∈ ?l)] =>
        destruct (bool_decide_reflect (id ∈ l)) as [Hin|Hin]
    end.
    { exfalso. revert Hin. unfold owner_dataset_ids, index_remove. simpl.
      destruct (decide (owner d = new_owner)) as [<-|Hne].
      - rewrite ids_insert_eq.
        intros [Hne _]%(list_elem_of_filter (λ y, y ≠ id)). done.
      - rewrite ids_insert_ne by done. intros Hin. apply Hne. symmetry.
        by eapply indexed_owner. }
    destruct (bool_decide (_ < _)%nat); [|done].
    eapply registry_inv_transfer; [done|exact Hd|reflexivity..].
  - (* import *)
    rewrite call_import. cbv zeta.
    destruct (bool_decide (tx_sender env = contract_admin s)); [|done].
    destruct (contract_paused s); [done|].
    destruct (0 <? id); [|done].
    destruct (datasets s !! id) as [d|] eqn:Hd; [done|].
    destruct (validate_fields _ _ _ _ _ _ _ _ _ _); [|done].
    destruct (bool_decide_reflect (id ∈ owner_dataset_ids s o)) as [Hin|Hin].
    { by apply (free_id_not_indexed s _ _ Hinv Hd) in Hin. }
    destruct (bool_decide (_ < _)%nat); [|done].
    destruct (N.ltb_spec (dataset_counter s) id).
    + eapply registry_inv_create;
        [done|exact Hd|reflexivity|reflexivity|..]; simpl; lia.
    + eapply registry_inv_create;
        [done|exact Hd|reflexivity|reflexivity|..]; simpl; lia.
  - (* set-contract-admin *)
    rewrite call_set_contract_admin.
    destruct (bool_decide _); [|done].
    destruct Hinv. by split.
  - (* set-paused *)
    rewrite call_set_paused.
    destruct (bool_decide _); [|done].
    destruct Hinv. by split.
Qed.

Lemma reachable_inv (s : State) : reachable s → registry_inv s.
Proof.
  induction 1 as [deployer|env c s _ IH].
  - apply registry_inv_init.
  - by apply registry_inv_call.
Qed.

Lemma steps_reachable (s s' : State) : reachable s → steps s s' → reachable s'.
Proof.
  intros Hs. induction 1 as [|env c s s' _ IH]; [done|].
  apply reachable_call. by apply IH.
Qed.

(** ** Freezing is one-way *)

Lemma frozen_call (env : Env) (c : Call) (s : State) (id : N) :
  registry_inv s → is_frozen s id = true → is_frozen (call env c s).2 id = true.
Proof.
  intros Hinv Hfrozen.
  assert (∃ d, datasets s !! id = Some d ∧ metadata_frozen d = true)
    as (d & Hd & Hfr).
  { unfold is_frozen in Hfrozen. destruct (datasets s !! id); [eauto|done]. }
  assert (Hkeep : ∀ s', datasets s' = datasets s → is_frozen s' id = true).
  { intros s' Hs'. unfold is_frozen. by rewrite Hs', Hd. }
  assert (Hput : ∀ s' k d',
            (k = id → metadata_frozen d' = true) →
            datasets s' = <[k := d']> (datasets s) →
            is_frozen s' id = true).
  { intros s' k d' Hk Hs'. unfold is_frozen. rewrite Hs'.
    destruct (decide (k = id)) as [->|Hne].
    - rewrite lookup_insert_eq. by apply Hk.
    - by rewrite lookup_insert_ne, Hd. }
  destruct c as [n ds dt cd amin amax lat lon ipfs pub
                |id0 n ds dt pub
                |id0
                |id0 new_owner
                |id0 o n ds dt cd amin amax lat lon ipfs pub fr cat st
                |a
                |p].
  - rewrite call_register. cbv zeta.
    assert (dataset_counter s + 1 ≠ id).
    { intros <-. pose proof (inv_bounded s Hinv _ _ Hd). lia. }
    repeat case_match; simpl; try (by apply Hkeep);
      (eapply Hput; [|reflexivity]; done).
  - rewrite call_update.
    destruct (datasets s !! id0) as [d0|] eqn:Hd0; [|by apply Hkeep].
    repeat case_match; simpl; try (by apply Hkeep).
    eapply Hput; [|reflexivity]. intros ->. simpl. congruence.
  - rewrite call_freeze.
    destruct (datasets s !! id0) as [d0|] eqn:Hd0; [|by apply Hkeep].
    repeat case_match; simpl; try (by apply Hkeep).
    eapply Hput; [|reflexivity]. done.
  - rewrite call_transfer.
    destruct (datasets s !! id0) as [d0|] eqn:Hd0; [|by apply Hkeep].
    cbv zeta.
    repeat case_match; simpl; try (by apply Hkeep);
      (eapply Hput; [|reflexivity]; intros ->; simpl; congruence).
  - rewrite call_import. cbv zeta.
    destruct (bool_decide (tx_sender env = contract_admin s));
      [|by apply Hkeep].
    destruct (contract_paused s); [by apply Hkeep|].
    destruct (0 <? id0); [|by apply Hkeep].
    destruct (datasets s !! id0) as [d0|] eqn:Hd0; [by apply Hkeep|].
    assert (id0 ≠ id) by congruence.
    repeat case_match; simpl; try (by apply Hkeep);
      (eapply Hput; [|reflexivity]; done).
  - rewrite call_set_contract_admin.
    case_match; simpl; by apply Hkeep.
  - rewrite call_set_paused.
    case_match; simpl; by apply Hkeep.
Qed.

Lemma frozen_steps (s s' : State) (id : N) :
  reachable s → steps s s' → is_frozen s id = true → is_frozen s' id = true.
Proof.
  intros Hs Hsteps Hfr. induction Hsteps as [|env c s s' Hsteps IH]; [done|].
  apply frozen_call; [|by apply IH].
  by apply reachable_inv, (steps_reachable s).
Qed.

(** C3. In a reachable registry a record whose frozen flag is true keeps
    it true through every sequence of calls; a successful freeze sets the
    flag, and freezing a record that is already frozen changes nothing
    (and succeeds for the owner while the registry is not paused). *)
Theorem metadata_frozen_is_one_way (s : State) :
  reachable s →
  (∀ s' id, steps s s' → is_frozen s id = true → is_frozen s' id = true)
  ∧ (∀ env id, is_Ok (call env (FreezeDatasetMetadata id) s).1 = true →
       is_frozen (call env (FreezeDatasetMetadata id) s).2 id = true)
  ∧ (∀ env id, is_frozen s id = true →
       (call env (FreezeDatasetMetadata id) s).2 = s)
  ∧ (∀ env id d, datasets s !! id = Some d → metadata_frozen d = true →
       tx_sender env = owner d → contract_paused s = false →
       call env (FreezeDatasetMetadata id) s = (Ok (CBool true), s)).
Proof.
  intros Hs.
  assert (Hidem : ∀ id d, datasets s !! id = Some d →
            metadata_frozen d = true →
            with_datasets s (<[id := merge_frozen d true]> (datasets s)) = s).
  { intros id d Hd Hfr.
    assert (merge_frozen d true = d) as ->.
    { destruct d; simpl in *. by subst. }
    rewrite insert_id by done. by destruct s. }
  split; [|split; [|split]].
  - intros s' id. by apply frozen_steps.
  - intros env id. rewrite call_freeze.
    destruct (datasets s !! id) as [d|] eqn:Hd; [|done].
    destruct (contract_paused s); [done|].
    destruct (bool_decide (tx_sender env = owner d)); [|done].
    intros _. unfold is_frozen. simpl. by rewrite lookup_insert_eq.
  - intros env id Hfr. unfold is_frozen in Hfr. rewrite call_freeze.
    destruct (datasets s !! id) as [d|] eqn:Hd; [|done].
    destruct (contract_paused s); [done|].
    destruct (bool_decide (tx_sender env = owner d)); [|done].
    simpl. by apply Hidem.
  - intros env id d Hd Hfr Hown Hp. rewrite call_freeze, Hd, Hp.
    rewrite bool_decide_eq_true_2 by done. by rewrite Hidem.
Qed.

Lemma reachable_frozen_registry : reachable frozen_registry.
Proof. apply reachable_call, reachable_one_record. Qed.

Lemma metadata_frozen_is_one_way_witness :
  is_frozen
    (call as_bob sample_register
       (call as_alice (TransferDataset 1 bob)
          (call as_alice (UpdateDatasetMetadata 1 "n" "d" "t" false)
             frozen_registry).2).2).2 1 = true.
Proof.
  refine (proj1 (metadata_frozen_is_one_way frozen_registry
                   reachable_frozen_registry) _ 1 _ _).
  - do 3 apply steps_call. apply steps_refl.
  - vm_compute; reflexivity.
Defined.

(** ** Transfer *)

Lemma filter_ne_absent (l : list N) (id : N) :
  id ∉ l → filter (λ x, x ≠ id) l = l.
Proof.
  induction l as [|x l IH]; [done|].
  intros Hnotin. apply not_elem_of_cons in Hnotin as [Hne Hl].
  rewrite filter_cons_True by done. by rewrite IH.
Qed.

(** In a duplicate-free sequence the id sits at one position, and
    filtering it out removes that position only. *)
Lemma filter_ne_once (l : list N) (id : N) :
  NoDup l → id ∈ l →
  ∃ l1 l2, l = l1 ++ id :: l2 ∧ (id ∉ l1) ∧ (id ∉ l2)
           ∧ filter (λ x, x ≠ id) l = l1 ++ l2.
Proof.
  intros Hnd Hin.
  destruct (list_elem_of_split l id Hin) as (l1 & l2 & ->).
  apply NoDup_app in Hnd as (_ & Hdisj & Hnd2).
  apply NoDup_cons in Hnd2 as [Hl2 _].
  assert (Hl1 : id ∉ l1).
  { intros H1. apply (Hdisj id H1). by left. }
  exists l1, l2. repeat split; try done.
  rewrite filter_app, filter_cons_False by (intros H; by apply H).
  by rewrite !filter_ne_absent.
Qed.

(** C4. In a reachable registry, a successful transfer called by the
    record's owner leaves the record with the new owner and all its other
    fields; the id occurred exactly once in the old owner's sequence and is
    taken out of it, the remaining ids keeping their order; it is appended
    once, at the end, to the new owner's sequence (which did not contain
    it); a transfer to oneself moves the id to the end of the sequence;
    other owners and other records are untouched. *)
Theorem transfer_moves_index_entry (env : Env) (s : State) (id : N)
    (new_owner : principal) (d : Dataset) :
  reachable s →
  datasets s !! id = Some d →
  tx_sender env = owner d →
  is_Ok (call env (TransferDataset id new_owner) s).1 = true →
  let s' := (call env (TransferDataset id new_owner) s).2 in
  datasets s' !! id = Some (merge_owner d new_owner)
  ∧ (∀ id', id' ≠ id → datasets s' !! id' = datasets s !! id')
  ∧ (∃ l1 l2,
       owner_dataset_ids s (owner d) = l1 ++ id :: l2
       ∧ (id ∉ l1) ∧ (id ∉ l2)
       ∧ (new_owner ≠ owner d →
            owner_dataset_ids s' (owner d) = l1 ++ l2
            ∧ (id ∉ owner_dataset_ids s new_owner)
            ∧ owner_dataset_ids s' new_owner
              = owner_dataset_ids s new_owner ++ [id])
       ∧ (new_owner = owner d →
            owner_dataset_ids s' new_owner = l1 ++ l2 ++ [id]))
  ∧ (∀ o, o ≠ owner d → o ≠ new_owner →
       owner_dataset_ids s' o = owner_dataset_ids s o).
Proof.
  intros Hs Hd Hsender. apply reachable_inv in Hs as Hinv.
  rewrite call_transfer, Hd. cbv zeta.
  destruct (contract_paused s); [done|].
  rewrite bool_decide_eq_true_2 by done.
  match goal with
  | |- context [bool_decide (id ∈ ?l)] =>
      destruct (bool_decide_reflect (id ∈ l)) as [Hin|Hin]
  end.
  { exfalso. revert Hin. unfold owner_dataset_ids, index_remove. simpl.
    destruct (decide (owner d = new_owner)) as [<-|Hne].
    - rewrite ids_insert_eq.
      intros [Hne _]%(list_elem_of_filter (λ y, y ≠ id)). done.
    - rewrite ids_insert_ne by done. intros Hin. apply Hne. symmetry.
      by eapply indexed_owner. }
  destruct (bool_decide (_ < _)%nat); [|done]. intros _.
  assert (Hids : ∀ o,
    owner_dataset_ids
      (with_datasets_by_owner
         (with_datasets_by_owner
            (with_datasets s (<[id:=merge_owner d new_owner]> (datasets s)))
            (index_remove s (owner d) id))
         (index_append
            (with_datasets_by_owner
               (with_datasets s (<[id:=merge_owner d new_owner]> (datasets s)))
               (index_remove s (owner d) id))
            new_owner id)) o
    = default [] (index_transfer s (owner d) new_owner id !! o)) by done.
  destruct (filter_ne_once (owner_dataset_ids s (owner d)) id)
    as (l1 & l2 & Hsplit & Hl1 & Hl2 & Hfilter).
  { apply (inv_nodup s Hinv). }
  { by apply (inv_owned s Hinv). }
  simpl fst. simpl snd. split; [|split; [|split]].
  - simpl. by rewrite lookup_insert_eq.
  - intros id' Hne. simpl. by rewrite lookup_insert_ne.
  - exists l1, l2. split; [done|]. split; [done|]. split; [done|]. split.
    + intros Hne. rewrite !Hids, !ids_index_transfer.
      rewrite decide_False by done. rewrite !decide_True by done.
      rewrite decide_False by done. rewrite Hfilter.
      split; [done|]. split; [|done].
      intros Hin'. apply Hne. by eapply indexed_owner.
    + intros ->. rewrite Hids, ids_index_transfer.
      rewrite !decide_True by done. by rewrite Hfilter, <- app_assoc.
  - intros o Ho Hn. rewrite Hids, ids_index_transfer.
    by rewrite !decide_False by done.
Qed.

Lemma transfer_moves_index_entry_witness :
  owner_dataset_ids (call as_alice (TransferDataset 1 bob) one_record).2 bob
  = owner_dataset_ids one_record bob ++ [1].
Proof.
  destruct (transfer_moves_index_entry as_alice one_record 1 bob
              (registered_dataset as_alice "Temperature Data"
                 "Atmospheric dataset" "temperature" 1640995200 1000 5000
                 40000000 (-74000000) "QmTestHash123" true)
              reachable_one_record)
    as (_ & _ & (l1 & l2 & _ & _ & _ & H & _) & _);
    [vm_compute; reflexivity..|].
  apply H. vm_compute. discriminate.
Defined.

(** ** Pagination over the identifier space *)

Lemma range_shift (lo : N) (n : nat) :
  map (λ i, lo + 1 + N.of_nat i) (seq 0 n) = map (λ k, lo + N.of_nat k) (seq 1 n).
Proof.
  rewrite <- seq_shift, map_map. apply map_ext. intros i. lia.
Qed.

Lemma range_length (lo hi : N) : list_len (range lo hi) = hi - lo.
Proof.
  unfold list_len, range. rewrite length_map, length_seq. lia.
Qed.

Lemma uint_add_fits (a b : N) (s : State) :
  a + b ≤ UINT_MAX → uint_add a b s = Value (a + b) s.
Proof.
  intros H. unfold uint_add. by destruct (N.leb_spec (a + b) UINT_MAX); [|lia].
Qed.

Lemma uint_add_overflow (a b : N) (s : State) :
  UINT_MAX < a + b → uint_add a b s = RuntimeError.
Proof.
  intros H. unfold uint_add. by destruct (N.leb_spec (a + b) UINT_MAX); [lia|].
Qed.

(** C5, counterexample. After the admin has imported the largest uint as
    an id (a reachable state), the page at offset [UINT_MAX - 1] with
    limit 5 aborts on [(+ offset safe-limit)], where the claim promises
    the one identifier [UINT_MAX] and no cursor. *)
Lemma id_page_overflow :
  reachable top_registry
  ∧ dataset_counter top_registry = UINT_MAX
  ∧ define_read_only (get_dataset_ids_page (UINT_MAX - 1) 5) top_registry
    = Abort
  ∧ page_id_range UINT_MAX (UINT_MAX - 1) 5 MAX_PAGE_SIZE
    = {| items := [UINT_MAX]; next_offset := None |}.
Proof.
  split; [apply reachable_call, reachable_init|].
  repeat split; vm_compute; reflexivity.
Qed.

(** C5, amended. When the counter is 0 or the offset is not below it, the
    page is empty with no cursor.  Otherwise, provided the sums
    [offset + min limit 100] and [min (offset + min limit 100) counter + 1]
    stay within the uint range, the page holds exactly the identifiers
    [offset+1 .. min (offset + min limit 100) counter] in increasing order
    and the cursor is [offset + returned_count] when that is below the
    counter and none otherwise; when one of the sums leaves the uint range
    the call aborts. *)
Theorem id_page_spec (s : State) (offset limit : N) :
  let counter := dataset_counter s in
  let upto := N.min (offset + N.min limit MAX_PAGE_SIZE) counter in
  let page := page_id_range counter offset limit MAX_PAGE_SIZE in
  (counter = 0 ∨ counter ≤ offset →
     define_read_only (get_dataset_ids_page offset limit) s
     = Ok {| items := []; next_offset := None |})
  ∧ (0 < counter → offset < counter →
     page_fits counter offset limit = true →
     define_read_only (get_dataset_ids_page offset limit) s = Ok page
     ∧ (∀ x, x ∈ items page ↔ offset + 1 ≤ x ≤ upto)
     ∧ (∀ k x, items page !! k = Some x → x = offset + 1 + N.of_nat k)
     ∧ list_len (items page) = upto - offset
     ∧ next_offset page
       = if offset + list_len (items page) <? counter
         then Some (offset + list_len (items page)) else None)
  ∧ (0 < counter → offset < counter →
     page_fits counter offset limit = false →
     define_read_only (get_dataset_ids_page offset limit) s = Abort).
Proof.
  intros counter upto page. subst counter upto page.
  set (counter := dataset_counter s).
  unfold define_read_only, get_dataset_ids_page, page_next_offset, var_get,
    bind, ret, page_fits, page_id_range. fold counter.
  assert (Hsafe : (if MAX_PAGE_SIZE <? limit then MAX_PAGE_SIZE else limit)
                  = N.min limit MAX_PAGE_SIZE).
  { destruct (N.ltb_spec MAX_PAGE_SIZE limit); lia. }
  rewrite Hsafe. set (sl := N.min limit MAX_PAGE_SIZE).
  split; [|split].
  - intros Hempty.
    assert ((counter =? 0) || (counter <=? offset) = true) as ->; [|done].
    apply orb_true_iff. rewrite N.eqb_eq, N.leb_le. done.
  - intros Hpos Hlt Hfits.
    apply andb_true_iff in Hfits as [Hend%N.leb_le Hlast%N.ltb_lt].
    assert ((counter =? 0) || (counter <=? offset) = false) as ->.
    { apply orb_false_iff. rewrite N.eqb_neq, N.leb_gt. lia. }
    rewrite uint_add_fits by done.
    assert (Hmin : (if counter <? offset + sl then counter else offset + sl)
                   = N.min (offset + sl) counter).
    { destruct (N.ltb_spec counter (offset + sl)); lia. }
    rewrite Hmin. set (upto := N.min (offset + sl) counter) in *.
    rewrite uint_add_fits by lia.
    rewrite uint_add_fits by lia.
    rewrite range_length.
    rewrite uint_add_fits by lia.
    assert (Hitems : range (offset + 1) (upto + 1)
                     = map (λ k, offset + N.of_nat k)
                         (seq 1 (N.to_nat (upto - offset)))).
    { unfold range. rewrite <- range_shift. f_equal. f_equal. lia. }
    assert (Hlen : list_len (map (λ k, offset + N.of_nat k)
                               (seq 1 (N.to_nat (upto - offset))))
                   = upto - offset).
    { unfold list_len. rewrite length_map, length_seq. lia. }
    rewrite Hitems. simpl items. simpl next_offset. rewrite Hlen.
    replace (upto + 1 - (offset + 1)) with (upto - offset) by lia.
    split; [done|]. split; [|split; [|done]].
    + intros x. rewrite list_elem_of_fmap. setoid_rewrite elem_of_seq. split.
      * intros (k & -> & Hk). lia.
      * intros Hx. exists (N.to_nat (x - offset)). lia.
    + intros k x. rewrite list_lookup_fmap.
      destruct (seq 1 (N.to_nat (upto - offset)) !! k) as [a|] eqn:Ha; [|done].
      apply lookup_seq in Ha as [-> _]. simpl. intros [= <-]. lia.
  - intros Hpos Hlt Hfits.
    assert ((counter =? 0) || (counter <=? offset) = false) as ->.
    { apply orb_false_iff. rewrite N.eqb_neq, N.leb_gt. lia. }
    destruct (N.le_gt_cases (offset + sl) UINT_MAX) as [Hend|Hend].
    + rewrite uint_add_fits by done.
      apply andb_false_iff in Hfits as [Hf|Hf].
      { apply N.leb_gt in Hf. lia. }
      apply N.ltb_ge in Hf.
      assert (Hmin : (if counter <? offset + sl then counter else offset + sl)
                     = N.min (offset + sl) counter).
      { destruct (N.ltb_spec counter (offset + sl)); lia. }
      rewrite Hmin.
      destruct (N.le_gt_cases (offset + 1) UINT_MAX) as [Hlo|Hlo].
      * rewrite uint_add_fits by done.
        by rewrite uint_add_overflow by lia.
      * by rewrite uint_add_overflow by lia.
    + by rewrite uint_add_overflow by lia.
Qed.

Lemma id_page_spec_witness :
  define_read_only (get_dataset_ids_page 0 250) (with_dataset_counter one_record 120)
  = Ok (page_id_range 120 0 250 MAX_PAGE_SIZE).
Proof.
  refine (proj1 (proj1 (proj2 (id_page_spec
            (with_dataset_counter one_record 120) 0 250)) _ _ _));
    vm_compute; reflexivity.
Defined.

(** ** Slicing an owner's index *)

Lemma fold_slice_fold (l res : list N) (i off e : N) (s : State) :
  i + N.of_nat (length l) ≤ UINT_MAX →
  fold_M slice_fold l
    {| acc_result := res; acc_idx := i; acc_offset := off; acc_end := e |} s
  = Value
      {| acc_result :=
           res ++ take (N.to_nat (e - N.max i off)) (drop (N.to_nat (off - i)) l);
         acc_idx := i + N.of_nat (length l);
         acc_offset := off; acc_end := e |} s.
Proof.
  revert res i. induction l as [|x l IH]; intros res i Hfit; simpl.
  - unfold ret. rewrite drop_nil, take_nil, app_nil_r, N.add_0_r. done.
  - simpl in Hfit. unfold bind at 1. unfold slice_fold at 1. simpl.
    unfold bind at 1. rewrite uint_add_fits by lia.
    destruct (N.leb_spec off i) as [Hoff|Hoff];
      destruct (N.ltb_spec i e) as [He|He]; simpl; unfold ret;
      rewrite IH by lia; f_equal; f_equal; try lia.
    + replace (N.to_nat (off - i)) with 0%nat by lia.
      replace (N.to_nat (off - (i + 1))) with 0%nat by lia.
      replace (N.to_nat (e - N.max i off)) with
        (S (N.to_nat (e - N.max (i + 1) off))) by lia.
      simpl. by rewrite <- app_assoc.
    + replace (N.to_nat (e - N.max i off)) with 0%nat by lia.
      replace (N.to_nat (e - N.max (i + 1) off)) with 0%nat by lia.
      done.
    + replace (N.to_nat (off - i)) with (S (N.to_nat (off - (i + 1)))) by lia.
      replace (N.max (i + 1) off) with (N.max i off) by lia. done.
    + replace (N.to_nat (off - i)) with (S (N.to_nat (off - (i + 1)))) by lia.
      replace (N.max (i + 1) off) with (N.max i off) by lia. done.
Qed.

Lemma slice_list_eval (l : list N) (offset limit : N) (s : State) :
  (length l ≤ 1000)%nat →
  offset + limit ≤ UINT_MAX →
  slice_list l offset limit s
  = Value (take (N.to_nat limit) (drop (N.to_nat offset) l)) s.
Proof.
  intros Hlen Hfit. unfold slice_list, bind.
  rewrite uint_add_fits by done.
  rewrite fold_slice_fold by (unfold UINT_MAX; simpl; lia).
  unfold ret. simpl. f_equal. f_equal; [lia|]. f_equal. lia.
Qed.

(** X1. On a list within the 1000 entries of its type, [slice-list]
    returns the [limit] elements that follow the first [offset] ones, in
    their order (fewer when the list ends, none when the offset is at or
    past its end); it aborts exactly when [offset + limit] overflows. *)
Theorem slice_list_take_drop (l : list N) (offset limit : N) (s : State) :
  (length l ≤ 1000)%nat →
  (offset + limit ≤ UINT_MAX →
     slice_list l offset limit s
     = Value (take (N.to_nat limit) (drop (N.to_nat offset) l)) s)
  ∧ (UINT_MAX < offset + limit → slice_list l offset limit s = RuntimeError)
  ∧ (list_len l ≤ offset → offset + limit ≤ UINT_MAX →
     slice_list l offset limit s = Value [] s).
Proof.
  intros Hlen. split; [by apply slice_list_eval|]. split.
  - intros Hover. unfold slice_list, bind. by rewrite uint_add_overflow.
  - intros Hpast Hfit. rewrite slice_list_eval by done.
    rewrite drop_ge by (unfold list_len in Hpast; lia). by rewrite take_nil.
Qed.

Lemma slice_list_take_drop_witness :
  slice_list [11; 12; 13; 14; 15] 1 3 one_record = Value [12; 13; 14] one_record.
Proof.
  refine (proj1 (slice_list_take_drop [11; 12; 13; 14; 15] 1 3 one_record _) _).
  - simpl. lia.
  - vm_compute. discriminate.
Defined.

(** ** Pages of an owner's index *)

Lemma owner_page_eval (s : State) (o : principal) (offset limit : N) :
  (length (owner_dataset_ids s o) ≤ 1000)%nat →
  offset + N.min limit MAX_PAGE_SIZE ≤ UINT_MAX →
  define_read_only (get_datasets_by_owner_page o offset limit) s
  = Ok {| items := take (N.to_nat (N.min limit MAX_PAGE_SIZE))
                     (drop (N.to_nat offset) (owner_dataset_ids s o));
          next_offset :=
            if offset + N.min limit MAX_PAGE_SIZE
               <? list_len (owner_dataset_ids s o)
            then Some (offset + N.min limit MAX_PAGE_SIZE) else None |}.
Proof.
  intros Hlen Hfit.
  unfold define_read_only, get_datasets_by_owner_page, get_owner_dataset_ids,
    page_next_offset, var_get.
  unfold bind at 1 2.
  assert (Hsafe : (if MAX_PAGE_SIZE <? limit then MAX_PAGE_SIZE else limit)
                  = N.min limit MAX_PAGE_SIZE).
  { destruct (N.ltb_spec MAX_PAGE_SIZE limit); lia. }
  rewrite Hsafe. set (sl := N.min limit MAX_PAGE_SIZE) in *.
  set (all := owner_dataset_ids s o) in *.
  rewrite slice_list_eval by (subst sl; lia || done).
  unfold bind, ret.
  assert (Hpage : list_len (take (N.to_nat sl) (drop (N.to_nat offset) all))
                  = N.min sl (list_len all - offset)).
  { unfold list_len. rewrite length_take, length_drop. lia. }
  rewrite uint_add_fits by lia. rewrite Hpage.
  f_equal. f_equal.
  destruct (N.ltb_spec (offset + sl) (list_len all));
    destruct (N.ltb_spec (offset + N.min sl (list_len all - offset))
                (list_len all)); try lia; [|done].
  f_equal. lia.
Qed.

(** X2. For an index within its capacity, the owner page holds the
    [min limit 100] ids that follow the first [offset] ones, in index
    order; the cursor is [offset + min limit 100] when ids remain beyond
    the page and none otherwise, so it is none exactly when the page
    reaches the end of the index; an offset at or past the end gives an
    empty page without cursor; the call aborts when
    [offset + min limit 100] overflows. *)
Theorem owner_page_spec (s : State) (o : principal) (offset limit : N) :
  (length (owner_dataset_ids s o) ≤ 1000)%nat →
  let all := owner_dataset_ids s o in
  let sl := N.min limit MAX_PAGE_SIZE in
  (offset + sl ≤ UINT_MAX →
     ∃ page,
       define_read_only (get_datasets_by_owner_page o offset limit) s = Ok page
       ∧ items page = take (N.to_nat sl) (drop (N.to_nat offset) all)
       ∧ (length (items page) ≤ 100)%nat
       ∧ (∀ k x, items page !! k = Some x → all !! (N.to_nat offset + k)%nat = Some x)
       ∧ (next_offset page = None ↔ list_len all ≤ offset + sl)
       ∧ (∀ n, next_offset page = Some n →
            n = offset + list_len (items page) ∧ n = offset + sl
            ∧ n < list_len all)
       ∧ (list_len all ≤ offset →
            items page = [] ∧ next_offset page = None))
  ∧ (UINT_MAX < offset + sl →
     define_read_only (get_datasets_by_owner_page o offset limit) s = Abort).
Proof.
  intros Hlen all sl. split.
  - intros Hfit. eexists. split; [by apply owner_page_eval|].
    simpl. fold all sl. split; [done|].
    assert (Hpage : list_len (take (N.to_nat sl) (drop (N.to_nat offset) all))
                    = N.min sl (list_len all - offset)).
    { unfold list_len. rewrite length_take, length_drop. lia. }
    split; [|split; [|split; [|split]]].
    + rewrite length_take. subst sl. unfold MAX_PAGE_SIZE. lia.
    + intros k x Hk. apply lookup_take_Some in Hk as [Hk _].
      by rewrite lookup_drop in Hk.
    + destruct (N.ltb_spec (offset + sl) (list_len all)); split;
        intros; try done; lia.
    + intros n. destruct (N.ltb_spec (offset + sl) (list_len all));
        [|done]. intros [= <-]. rewrite Hpage. lia.
    + intros Hpast. split.
      * rewrite drop_ge by (unfold list_len in Hpast; lia). by rewrite take_nil.
      * destruct (N.ltb_spec (offset + sl) (list_len all)); [lia|done].
  - intros Hover.
    unfold define_read_only, get_datasets_by_owner_page, get_owner_dataset_ids,
      var_get, slice_list.
    unfold bind at 1 2 3.
    assert (Hsafe : (if MAX_PAGE_SIZE <? limit then MAX_PAGE_SIZE else limit)
                    = N.min limit MAX_PAGE_SIZE).
    { destruct (N.ltb_spec MAX_PAGE_SIZE limit); lia. }
    rewrite Hsafe. by rewrite uint_add_overflow.
Qed.

Lemma owner_page_spec_witness :
  ∃ page,
    define_read_only (get_datasets_by_owner_page bob 0 1) bob_is_full = Ok page
    ∧ items page = [2].
Proof.
  destruct (proj1 (owner_page_spec bob_is_full bob 0 1
                     ltac:(vm_compute; lia)) ltac:(vm_compute; discriminate))
    as (page & Hpage & Hitems & _).
  exists page. split; [exact Hpage|]. rewrite Hitems. vm_compute. reflexivity.
Defined.

Lemma owner_page_overflow (s : State) (o : principal) (offset limit : N) :
  UINT_MAX < offset + N.min limit MAX_PAGE_SIZE →
  define_read_only (get_datasets_by_owner_page o offset limit) s = Abort.
Proof.
  intros Hover.
  unfold define_read_only, get_datasets_by_owner_page, get_owner_dataset_ids,
    var_get, slice_list.
  unfold bind at 1 2 3.
  assert (Hsafe : (if MAX_PAGE_SIZE <? limit then MAX_PAGE_SIZE else limit)
                  = N.min limit MAX_PAGE_SIZE).
  { destruct (N.ltb_spec MAX_PAGE_SIZE limit); lia. }
  rewrite Hsafe. by rewrite uint_add_overflow.
Qed.

(** X3. Owner pages chain: when a page comes with a cursor, the page
    requested at that cursor continues exactly where the first one
    stopped, so the two item lists together are the slice of
    [min l1 100 + min l2 100] ids after [offset]. *)
Theorem owner_pages_chain (s : State) (o : principal) (offset l1 l2 n : N)
    (p1 p2 : Page) :
  (length (owner_dataset_ids s o) ≤ 1000)%nat →
  define_read_only (get_datasets_by_owner_page o offset l1) s = Ok p1 →
  next_offset p1 = Some n →
  define_read_only (get_datasets_by_owner_page o n l2) s = Ok p2 →
  items p1 ++ items p2
  = take (N.to_nat (N.min l1 MAX_PAGE_SIZE + N.min l2 MAX_PAGE_SIZE))
      (drop (N.to_nat offset) (owner_dataset_ids s o)).
Proof.
  intros Hlen H1 Hn H2.
  destruct (N.le_gt_cases (offset + N.min l1 MAX_PAGE_SIZE) UINT_MAX)
    as [Hfit1|Hover]; [|by rewrite owner_page_overflow in H1].
  destruct (N.le_gt_cases (n + N.min l2 MAX_PAGE_SIZE) UINT_MAX)
    as [Hfit2|Hover]; [|by rewrite owner_page_overflow in H2].
  rewrite owner_page_eval in H1 by done. injection H1 as <-.
  rewrite owner_page_eval in H2 by done. injection H2 as <-.
  simpl in *.
  destruct (N.ltb_spec (offset + N.min l1 MAX_PAGE_SIZE)
              (list_len (owner_dataset_ids s o))); [|done].
  injection Hn as <-.
  replace (N.to_nat (offset + N.min l1 MAX_PAGE_SIZE))
    with (N.to_nat offset + N.to_nat (N.min l1 MAX_PAGE_SIZE))%nat by lia.
  rewrite <- drop_drop, take_take_drop. f_equal. lia.
Qed.

Lemma owner_pages_chain_witness :
  [2; 3] ++ [4; 5; 6]
  = take (N.to_nat (N.min 2 MAX_PAGE_SIZE + N.min 3 MAX_PAGE_SIZE))
      (drop (N.to_nat 0) (owner_dataset_ids bob_is_full bob)).
Proof.
  refine (owner_pages_chain bob_is_full bob 0 2 3 2
            {| items := [2; 3]; next_offset := Some 2 |}
            {| items := [4; 5; 6]; next_offset := Some 5 |} _ _ _ _).
  - vm_compute; lia.
  - vm_compute; reflexivity.
  - reflexivity.
  - vm_compute; reflexivity.
Defined.

(** ** Cursors over the identifier space *)

Lemma id_page_eval (s : State) (offset limit : N) :
  0 < dataset_counter s → offset < dataset_counter s →
  page_fits (dataset_counter s) offset limit = true →
  define_read_only (get_dataset_ids_page offset limit) s
  = Ok {| items :=
            range (offset + 1)
              (N.min (offset + N.min limit MAX_PAGE_SIZE) (dataset_counter s) + 1);
          next_offset :=
            if N.min (offset + N.min limit MAX_PAGE_SIZE) (dataset_counter s)
               <? dataset_counter s
            then Some (N.min (offset + N.min limit MAX_PAGE_SIZE)
                         (dataset_counter s))
            else None |}.
Proof.
  intros Hpos Hlt Hfits. set (counter := dataset_counter s) in *.
  unfold define_read_only, get_dataset_ids_page, page_next_offset, var_get,
    bind, ret, page_fits in *. fold counter.
  assert (Hsafe : (if MAX_PAGE_SIZE <? limit then MAX_PAGE_SIZE else limit)
                  = N.min limit MAX_PAGE_SIZE).
  { destruct (N.ltb_spec MAX_PAGE_SIZE limit); lia. }
  rewrite Hsafe. set (sl := N.min limit MAX_PAGE_SIZE) in *.
  apply andb_true_iff in Hfits as [Hend%N.leb_le Hlast%N.ltb_lt].
  assert ((counter =? 0) || (counter <=? offset) = false) as ->.
  { apply orb_false_iff. rewrite N.eqb_neq, N.leb_gt. lia. }
  rewrite uint_add_fits by done.
  assert (Hmin : (if counter <? offset + sl then counter else offset + sl)
                 = N.min (offset + sl) counter).
  { destruct (N.ltb_spec counter (offset + sl)); lia. }
  rewrite Hmin. set (upto := N.min (offset + sl) counter) in *.
  rewrite uint_add_fits by lia.
  rewrite uint_add_fits by lia.
  rewrite range_length.
  rewrite uint_add_fits by lia.
  replace (offset + (upto + 1 - (offset + 1))) with upto by lia. done.
Qed.

Lemma id_page_abort (s : State) (offset limit : N) :
  0 < dataset_counter s → offset < dataset_counter s →
  page_fits (dataset_counter s) offset limit = false →
  define_read_only (get_dataset_ids_page offset limit) s = Abort.
Proof.
  intros Hpos Hlt Hfits. set (counter := dataset_counter s) in *.
  unfold define_read_only, get_dataset_ids_page, page_next_offset, var_get,
    bind, ret, page_fits in *. fold counter.
  assert (Hsafe : (if MAX_PAGE_SIZE <? limit then MAX_PAGE_SIZE else limit)
                  = N.min limit MAX_PAGE_SIZE).
  { destruct (N.ltb_spec MAX_PAGE_SIZE limit); lia. }
  rewrite Hsafe. set (sl := N.min limit MAX_PAGE_SIZE) in *.
  assert ((counter =? 0) || (counter <=? offset) = false) as ->.
  { apply orb_false_iff. rewrite N.eqb_neq, N.leb_gt. lia. }
  destruct (N.le_gt_cases (offset + sl) UINT_MAX) as [Hend|Hend].
  - rewrite uint_add_fits by done.
    apply andb_false_iff in Hfits as [Hf|Hf].
    { apply N.leb_gt in Hf. lia. }
    apply N.ltb_ge in Hf.
    assert (Hmin : (if counter <? offset + sl then counter else offset + sl)
                   = N.min (offset + sl) counter).
    { destruct (N.ltb_spec counter (offset + sl)); lia. }
    rewrite Hmin.
    destruct (N.le_gt_cases (offset + 1) UINT_MAX) as [Hlo|Hlo].
    + rewrite uint_add_fits by done. by rewrite uint_add_overflow by lia.
    + by rewrite uint_add_overflow by lia.
  - by rewrite uint_add_overflow by lia.
Qed.

Lemma elem_of_range (lo hi x : N) : x ∈ range lo hi ↔ lo ≤ x < hi.
Proof.
  unfold range. rewrite list_elem_of_fmap. setoid_rewrite elem_of_seq. split.
  - intros (k & -> & Hk). lia.
  - intros Hx. exists (N.to_nat (x - lo)). lia.
Qed.

Lemma range_app (a b c : N) : a ≤ b → b ≤ c → range a b ++ range b c = range a c.
Proof.
  intros Hab Hbc. unfold range.
  replace (N.to_nat (c - a)) with (N.to_nat (b - a) + N.to_nat (c - b))%nat
    by lia.
  rewrite seq_app, map_app. f_equal. simpl.
  apply list_eq. intros i. rewrite !list_lookup_fmap.
  destruct (decide (i < N.to_nat (c - b))%nat) as [Hi|Hi].
  - rewrite !lookup_seq_lt by done. simpl. f_equal. lia.
  - rewrite !lookup_seq_ge by lia. done.
Qed.

Lemma range_last (lo hi : N) : lo < hi → last (range lo hi) = Some (hi - 1).
Proof.
  intros Hlt. rewrite last_lookup. unfold range.
  rewrite length_map, length_seq, list_lookup_fmap.
  rewrite lookup_seq_lt by lia. simpl. f_equal. lia.
Qed.

(** X4. For a registry with records and an offset below the counter
    (sums within the uint range), the id page has at most 100 items, all
    of them identifiers between 1 and the counter; its cursor, when there
    is one, is the offset plus the number of items, stays below the
    counter, and is past the offset exactly when the limit is positive (a
    limit of 0 returns the offset itself as cursor); there is no cursor
    exactly when the page ends with the counter. *)
Theorem id_page_cursor (s : State) (offset limit : N) :
  0 < dataset_counter s → offset < dataset_counter s →
  page_fits (dataset_counter s) offset limit = true →
  ∃ page,
    define_read_only (get_dataset_ids_page offset limit) s = Ok page
    ∧ (length (items page) ≤ 100)%nat
    ∧ (∀ x, x ∈ items page → 1 ≤ x ≤ dataset_counter s)
    ∧ (∀ n, next_offset page = Some n →
         n = offset + list_len (items page)
         ∧ n < dataset_counter s
         ∧ (0 < limit → offset < n)
         ∧ (limit = 0 → n = offset ∧ items page = []))
    ∧ (next_offset page = None ↔ last (items page) = Some (dataset_counter s))
    ∧ (next_offset page = None ↔
         dataset_counter s ≤ offset + N.min limit MAX_PAGE_SIZE).
Proof.
  intros Hpos Hlt Hfits. eexists. split; [by apply id_page_eval|].
  set (counter := dataset_counter s) in *.
  set (upto := N.min (offset + N.min limit MAX_PAGE_SIZE) counter).
  simpl. fold upto.
  assert (Hup : offset ≤ upto ∧ upto ≤ counter ∧ upto ≤ offset + 100).
  { subst upto. unfold MAX_PAGE_SIZE. lia. }
  assert (Hlen : list_len (range (offset + 1) (upto + 1)) = upto - offset).
  { rewrite range_length. lia. }
  split; [|split; [|split; [|split]]].
  - unfold list_len in Hlen. lia.
  - intros x Hx%elem_of_range. lia.
  - intros n. destruct (N.ltb_spec upto counter) as [Hc|Hc]; [|done].
    intros [= <-]. rewrite Hlen. split; [lia|]. split; [done|].
    split.
    + intros Hl. subst upto. unfold MAX_PAGE_SIZE. lia.
    + intros ->. assert (upto = offset) as -> by (subst upto; lia).
      split; [done|]. unfold range.
      by replace (N.to_nat (offset + 1 - (offset + 1))) with 0%nat by lia.
  - destruct (N.ltb_spec upto counter) as [Hc|Hc]; split; try done.
    + destruct (N.eq_dec upto offset) as [He|He].
      * unfold range.
        replace (N.to_nat (upto + 1 - (offset + 1))) with 0%nat by lia. done.
      * rewrite range_last by lia. intros [= H]. lia.
    + intros _. rewrite range_last by lia. f_equal. lia.
  - destruct (N.ltb_spec upto counter) as [Hc|Hc]; split; try done.
    + subst upto. lia.
    + subst upto. lia.
Qed.

Lemma id_page_cursor_witness :
  ∃ page,
    define_read_only (get_dataset_ids_page 0 1) two_records = Ok page
    ∧ (length (items page) ≤ 100)%nat.
Proof.
  destruct (id_page_cursor two_records 0 1) as (page & Hpage & Hlen & _);
    [vm_compute; reflexivity..|].
  exists page. split; assumption.
Defined.

(** X5. Id pages chain: when a page comes with a cursor, the page
    requested at that cursor starts with the identifier that follows the
    last one of the first page, and the two item lists together are the
    identifiers from [offset + 1] up to the end of the second page. *)
Theorem id_pages_chain (s : State) (offset l1 l2 n : N) (p1 p2 : Page) :
  define_read_only (get_dataset_ids_page offset l1) s = Ok p1 →
  next_offset p1 = Some n →
  define_read_only (get_dataset_ids_page n l2) s = Ok p2 →
  items p1 ++ items p2
  = range (offset + 1)
      (N.min (n + N.min l2 MAX_PAGE_SIZE) (dataset_counter s) + 1)
  ∧ items p1 = range (offset + 1) (n + 1)
  ∧ items p2 = range (n + 1)
                 (N.min (n + N.min l2 MAX_PAGE_SIZE) (dataset_counter s) + 1).
Proof.
  intros H1 Hn H2.
  assert (Hstart : 0 < dataset_counter s ∧ offset < dataset_counter s).
  { destruct (N.eq_dec (dataset_counter s) 0) as [H0|H0];
      [|destruct (N.le_gt_cases (dataset_counter s) offset) as [Hle|Hgt];
        [|lia]].
    - exfalso. revert H1.
      unfold define_read_only, get_dataset_ids_page, var_get, bind, ret.
      rewrite H0. simpl. intros [= <-]. done.
    - exfalso. revert H1.
      unfold define_read_only, get_dataset_ids_page, var_get, bind, ret.
      apply N.leb_le in Hle. rewrite Hle, orb_true_r. intros [= <-]. done. }
  destruct Hstart as [Hpos Hlt].
  destruct (page_fits (dataset_counter s) offset l1) eqn:Hfit1;
    [|by rewrite id_page_abort in H1].
  rewrite id_page_eval in H1 by done. injection H1 as <-. simpl in Hn.
  destruct (N.ltb_spec
              (N.min (offset + N.min l1 MAX_PAGE_SIZE) (dataset_counter s))
              (dataset_counter s)) as [Hc|Hc]; [|done].
  injection Hn as Hn.
  destruct (page_fits (dataset_counter s) n l2) eqn:Hfit2;
    [|rewrite id_page_abort in H2 by (done || lia); done].
  rewrite id_page_eval in H2 by (done || lia). injection H2 as <-.
  simpl. rewrite Hn. split; [|done].
  apply range_app; lia.
Qed.

Lemma id_pages_chain_witness :
  [1] ++ [2] = range (0 + 1)
                 (N.min (1 + N.min 5 MAX_PAGE_SIZE) (dataset_counter two_records) + 1)
  ∧ [1] = range (0 + 1) (1 + 1)
  ∧ [2] = range (1 + 1)
            (N.min (1 + N.min 5 MAX_PAGE_SIZE) (dataset_counter two_records) + 1).
Proof.
  refine (id_pages_chain two_records 0 1 5 1
            {| items := [1]; next_offset := Some 1 |}
            {| items := [2]; next_offset := None |} _ _ _).
  - vm_compute; reflexivity.
  - reflexivity.
  - vm_compute; reflexivity.
Defined.

(** ** Well-formed registries *)

Lemma registry_wf_init (deployer : principal) :
  registry_wf (initial_state deployer).
Proof.
  split; unfold owner_dataset_ids; simpl.
  - intros id d H. by rewrite lookup_empty in H.
  - intros o. rewrite lookup_empty. simpl. lia.
  - intros id d H. by rewrite lookup_empty in H.
Qed.

(** A state whose records are old ones or valid ones at positive ids, and
    whose indexes are within capacity. *)
Lemma registry_wf_step (s t : State) :
  registry_wf s →
  (∀ id d, datasets t !! id = Some d →
     datasets s !! id = Some d ∨ (0 < id ∧ record_valid d = true)) →
  (∀ o, (length (owner_dataset_ids t o) ≤ 1000)%nat) →
  registry_wf t.
Proof.
  intros Hwf Hrec Hcap. split; [| done |].
  - intros id d Hd. destruct (Hrec id d Hd) as [Hs|[Hp _]]; [|done].
    by eapply wf_positive.
  - intros id d Hd. destruct (Hrec id d Hd) as [Hs|[_ Hv]]; [|done].
    by eapply wf_valid.
Qed.

Lemma insert_old_or_new (m : gmap N Dataset) (k id : N) (d' d : Dataset) :
  <[k := d']> m !! id = Some d → m !! id = Some d ∨ (id = k ∧ d = d').
Proof.
  intros [[-> ->]|[_ H]]%lookup_insert_Some; [by right|by left].
Qed.

Lemma length_index_append (s : State) (o o' : principal) (id : N) (m : gmap string (list N)) :
  m = datasets_by_owner s →
  (length (owner_dataset_ids s o) < 1000)%nat →
  (∀ o'', (length (owner_dataset_ids s o'') ≤ 1000)%nat) →
  (length (default [] (index_append s o id !! o')) ≤ 1000)%nat.
Proof.
  intros _ Hlt Hall. unfold index_append.
  destruct (decide (o = o')) as [<-|Hne].
  - rewrite ids_insert_eq, length_app. simpl. lia.
  - rewrite ids_insert_ne by done. apply Hall.
Qed.

Lemma length_index_remove (s : State) (o o' : principal) (id : N) :
  (∀ o'', (length (owner_dataset_ids s o'') ≤ 1000)%nat) →
  (length (default [] (index_remove s o id !! o')) ≤ 1000)%nat.
Proof.
  intros Hall. unfold index_remove.
  destruct (decide (o = o')) as [<-|Hne].
  - rewrite ids_insert_eq.
    pose proof (length_filter (λ x, x ≠ id) (owner_dataset_ids s o)).
    pose proof (Hall o). lia.
  - rewrite ids_insert_ne by done. apply Hall.
Qed.

Lemma registry_wf_call (env : Env) (c : Call) (s : State) :
  registry_wf s → registry_wf (call env c s).2.
Proof.
  intros Hwf.
  destruct c as [n ds dt cd amin amax lat lon ipfs pub
                |id n ds dt pub
                |id
                |id new_owner
                |id o n ds dt cd amin amax lat lon ipfs pub fr cat st
                |a
                |p].
  - rewrite call_register. cbv zeta.
    destruct (_ <=? UINT_MAX); [|done].
    destruct (contract_paused s); [done|].
    destruct (validate_fields _ _ _ _ _ _ _ _ _ _) eqn:Hv; [|done].
    destruct (bool_decide (_ ∈ _)).
    + apply (registry_wf_step s); [done| |apply (wf_capacity s Hwf)].
      intros x dx [?|[-> ->]]%insert_old_or_new; [by left|right].
      split; [lia|done].
    + destruct (bool_decide_reflect
                  (length (owner_dataset_ids s (tx_sender env)) < 1000)%nat);
        [|done].
      apply (registry_wf_step s); [done| |].
      * intros x dx [?|[-> ->]]%insert_old_or_new; [by left|right].
        split; [lia|done].
      * intros o'. by apply (length_index_append s _ _ _ _ eq_refl),
                     (wf_capacity s Hwf).
  - rewrite call_update.
    destruct (datasets s !! id) as [d|] eqn:Hd; [|done].
    destruct (contract_paused s); [done|].
    destruct (bool_decide _); [|done].
    destruct (metadata_frozen d); [done|].
    destruct ((1 <=? len n) && (1 <=? len ds) && (1 <=? len dt)) eqn:Hne;
      [|done].
    apply (registry_wf_step s); [done| |apply (wf_capacity s Hwf)].
    intros x dx [?|[-> ->]]%insert_old_or_new; [by left|right].
    split; [by eapply wf_positive|].
    pose proof (wf_valid s Hwf _ _ Hd) as Hv.
    unfold record_valid, validate_fields in *. simpl.
    apply andb_true_iff in Hne as [[Hn Hds]%andb_true_iff Hdt].
    rewrite Hn, Hds, Hdt.
    destruct (1 <=? len (name d)), (1 <=? len (description d)),
      (1 <=? len (data_type d)); simpl in *; done.
  - rewrite call_freeze.
    destruct (datasets s !! id) as [d|] eqn:Hd; [|done].
    destruct (contract_paused s); [done|].
    destruct (bool_decide _); [|done].
    apply (registry_wf_step s); [done| |apply (wf_capacity s Hwf)].
    intros x dx [?|[-> ->]]%insert_old_or_new; [by left|right].
    split; [by eapply wf_positive|]. exact (wf_valid s Hwf id d Hd).
  - rewrite call_transfer.
    destruct (datasets s !! id) as [d|] eqn:Hd; [|done]. cbv zeta.
    destruct (contract_paused s); [done|].
    destruct (bool_decide (tx_sender env = owner d)); [|done].
    assert (Hrec : ∀ x dx,
              <[id := merge_owner d new_owner]> (datasets s) !! x = Some dx →
              datasets s !! x = Some dx ∨ (0 < x ∧ record_valid dx = true)).
    { intros x dx [?|[-> ->]]%insert_old_or_new; [by left|right].
      split; [by eapply wf_positive|]. exact (wf_valid s Hwf id d Hd). }
    match goal with
    | |- context [bool_decide (id ∈ ?l)] => destruct (bool_decide (id ∈ l))
    end.
    + apply (registry_wf_step s); [done|done|].
      intros o'. apply length_index_remove, (wf_capacity s Hwf).
    + match goal with
      | |- context [bool_decide (?P < 1000)%nat] =>
          destruct (bool_decide_reflect (P < 1000)%nat) as [Hlt|Hge]
      end; [|done].
      apply (registry_wf_step s); [done|done|].
      intros o'. apply (length_index_append _ _ _ _ _ eq_refl); [done|].
      intros o''. apply length_index_remove, (wf_capacity s Hwf).
  - rewrite call_import. cbv zeta.
    destruct (bool_decide (tx_sender env = contract_admin s)); [|done].
    destruct (contract_paused s); [done|].
    destruct (N.ltb_spec 0 id) as [Hpos|]; [|done].
    destruct (datasets s !! id) as [d|] eqn:Hd; [done|].
    destruct (validate_fields _ _ _ _ _ _ _ _ _ _) eqn:Hv; [|done].
    destruct (bool_decide (_ ∈ _)).
    + destruct (dataset_counter s <? id); simpl;
        (apply (registry_wf_step s); [done| |apply (wf_capacity s Hwf)]);
        intros x dx [?|[-> ->]]%insert_old_or_new; (by left) || (by right).
    + destruct (bool_decide_reflect
                  (length (owner_dataset_ids s o) < 1000)%nat); [|done].
      destruct (dataset_counter s <? id); simpl;
        (apply (registry_wf_step s); [done| |]);
        try (intros x dx [?|[-> ->]]%insert_old_or_new; (by left) || (by right));
        intros o'; by apply (length_index_append s _ _ _ _ eq_refl),
                        (wf_capacity s Hwf).
  - rewrite call_set_contract_admin.
    destruct (bool_decide _); [|done]. destruct Hwf. by split.
  - rewrite call_set_paused.
    destruct (bool_decide _); [|done]. destruct Hwf. by split.
Qed.

Lemma reachable_wf (s : State) : reachable s → registry_wf s.
Proof.
  induction 1 as [deployer|env c s _ IH].
  - apply registry_wf_init.
  - by apply registry_wf_call.
Qed.

(** ** What a stored record keeps *)

Lemma record_evolves_refl (d : Dataset) : record_evolves d d.
Proof. unfold record_evolves. tauto. Qed.

Lemma record_evolves_trans (d1 d2 d3 : Dataset) :
  record_evolves d1 d2 → record_evolves d2 d3 → record_evolves d1 d3.
Proof.
  unfold record_evolves.
  intros (? & ? & ? & ? & ? & ? & ? & ? & H12) (? & ? & ? & ? & ? & ? & ? & ? & H23).
  do 8 (split; [congruence|]).
  intros Hfr. destruct (H12 Hfr) as (Hfr2 & ? & ? & ? & ?).
  destruct (H23 Hfr2) as (? & ? & ? & ? & ?).
  repeat split; congruence.
Qed.

Lemma call_record_evolves (env : Env) (c : Call) (s : State) (id : N)
    (d : Dataset) :
  registry_inv s → datasets s !! id = Some d →
  ∃ d', datasets (call env c s).2 !! id = Some d' ∧ record_evolves d d'.
Proof.
  intros Hinv Hd.
  assert (Hkeep : ∃ d', datasets s !! id = Some d' ∧ record_evolves d d').
  { exists d. split; [done|apply record_evolves_refl]. }
  assert (Hput : ∀ k d',
            (k = id → record_evolves d d') →
            ∃ d'', <[k := d']> (datasets s) !! id = Some d''
                   ∧ record_evolves d d'').
  { intros k d' Hk. destruct (decide (k = id)) as [->|Hne].
    - exists d'. rewrite lookup_insert_eq. split; [done|by apply Hk].
    - exists d. rewrite lookup_insert_ne by done.
      split; [done|apply record_evolves_refl]. }
  destruct c as [n ds dt cd amin amax lat lon ipfs pub
                |id0 n ds dt pub
                |id0
                |id0 new_owner
                |id0 o n ds dt cd amin amax lat lon ipfs pub fr cat st
                |a
                |p].
  - rewrite call_register. cbv zeta.
    assert (dataset_counter s + 1 ≠ id).
    { intros <-. pose proof (inv_bounded s Hinv _ _ Hd). lia. }
    repeat case_match; simpl; try (done);
      (by apply Hput).
  - rewrite call_update.
    destruct (datasets s !! id0) as [d0|] eqn:Hd0; [|done].
    destruct (contract_paused s); [done|].
    destruct (bool_decide _); [|done].
    destruct (metadata_frozen d0) eqn:Hfr; [done|].
    destruct (_ && _); [|done].
    simpl. apply Hput. intros ->.
    assert (d0 = d) as -> by congruence.
    unfold record_evolves. simpl. repeat split; congruence.
  - rewrite call_freeze.
    destruct (datasets s !! id0) as [d0|] eqn:Hd0; [|done].
    destruct (contract_paused s); [done|].
    destruct (bool_decide _); [|done].
    simpl. apply Hput. intros ->.
    assert (d0 = d) as -> by congruence.
    unfold record_evolves. simpl. repeat split; congruence.
  - rewrite call_transfer.
    destruct (datasets s !! id0) as [d0|] eqn:Hd0; [|done].
    cbv zeta.
    assert (Hev : id0 = id → record_evolves d (merge_owner d0 new_owner)).
    { intros ->. assert (d0 = d) as -> by congruence.
      unfold record_evolves. simpl. repeat split; congruence. }
    repeat case_match; simpl; try (done);
      (by apply Hput).
  - rewrite call_import. cbv zeta.
    destruct (bool_decide (tx_sender env = contract_admin s));
      [|done].
    destruct (contract_paused s); [done|].
    destruct (0 <? id0); [|done].
    destruct (datasets s !! id0) as [d0|] eqn:Hd0; [done|].
    assert (id0 ≠ id) by congruence.
    repeat case_match; simpl; try (done);
      (by apply Hput).
  - rewrite call_set_contract_admin.
    case_match; simpl; done.
  - rewrite call_set_paused.
    case_match; simpl; done.
Qed.

Lemma steps_record_evolves (s s' : State) (id : N) (d : Dataset) :
  reachable s → steps s s' → datasets s !! id = Some d →
  ∃ d', datasets s' !! id = Some d' ∧ record_evolves d d'.
Proof.
  intros Hs Hsteps Hd. induction Hsteps as [|env c s s' Hsteps IH].
  - exists d. split; [done|apply record_evolves_refl].
  - destruct (IH Hs Hd) as (d1 & Hd1 & Hev1).
    destruct (call_record_evolves env c s' id d1) as (d2 & Hd2 & Hev2);
      [by apply reachable_inv, (steps_reachable s)|done|].
    exists d2. split; [done|]. by eapply record_evolves_trans.
Qed.

(** X6. In a reachable registry, whatever calls follow, a stored record
    stays stored, and its collection date, altitude range, latitude,
    longitude, ipfs hash, creation time and status stay what they were:
    no function of the contract rewrites them or deletes a record. *)
Theorem measurement_fields_are_immutable (s s' : State) (id : N) (d : Dataset) :
  reachable s → steps s s' → get_dataset id s = found d →
  ∃ d', get_dataset id s' = found d'
    ∧ collection_date d' = collection_date d
    ∧ altitude_min d' = altitude_min d
    ∧ altitude_max d' = altitude_max d
    ∧ latitude d' = latitude d
    ∧ longitude d' = longitude d
    ∧ ipfs_hash d' = ipfs_hash d
    ∧ created_at d' = created_at d
    ∧ status d' = status d.
Proof.
  intros Hs Hsteps Hget.
  assert (Hd : datasets s !! id = Some d).
  { unfold get_dataset in Hget. destruct (datasets s !! id); congruence. }
  destruct (steps_record_evolves s s' id d Hs Hsteps Hd) as (d' & Hd' & Hev).
  exists d'. unfold get_dataset. rewrite Hd'. split; [done|].
  unfold record_evolves in Hev. tauto.
Qed.

Lemma measurement_fields_are_immutable_witness :
  ∃ d', get_dataset 1
          (call as_bob (UpdateDatasetMetadata 1 "x" "y" "z" false)
             (call as_alice (TransferDataset 1 bob) one_record).2).2
        = found d'
    ∧ collection_date d' = 1640995200.
Proof.
  destruct (measurement_fields_are_immutable one_record
              (call as_bob (UpdateDatasetMetadata 1 "x" "y" "z" false)
                 (call as_alice (TransferDataset 1 bob) one_record).2).2
              1
              (registered_dataset as_alice "Temperature Data"
                 "Atmospheric dataset" "temperature" 1640995200 1000 5000
                 40000000 (-74000000) "QmTestHash123" true)
              reachable_one_record)
    as (d' & Hget & Hcd & _).
  - do 2 apply steps_call. apply steps_refl.
  - vm_compute; reflexivity.
  - exists d'. split; [exact Hget|exact Hcd].
Defined.

(** X7. In a reachable registry, once a record is frozen, its name,
    description, data type and public flag (and the frozen flag) stay
    what they were through every later sequence of calls; its owner may
    still change. *)
Theorem frozen_metadata_is_immutable (s s' : State) (id : N) (d : Dataset) :
  reachable s → steps s s' →
  get_dataset id s = found d → metadata_frozen d = true →
  ∃ d', get_dataset id s' = found d'
    ∧ metadata_frozen d' = true
    ∧ name d' = name d
    ∧ description d' = description d
    ∧ data_type d' = data_type d
    ∧ is_public d' = is_public d.
Proof.
  intros Hs Hsteps Hget Hfr.
  assert (Hd : datasets s !! id = Some d).
  { unfold get_dataset in Hget. destruct (datasets s !! id); congruence. }
  destruct (steps_record_evolves s s' id d Hs Hsteps Hd) as (d' & Hd' & Hev).
  exists d'. unfold get_dataset. rewrite Hd'. split; [done|].
  unfold record_evolves in Hev. tauto.
Qed.

Lemma frozen_metadata_is_immutable_witness :
  ∃ d', get_dataset 1
          (call as_bob (UpdateDatasetMetadata 1 "x" "y" "z" false)
             (call as_alice (TransferDataset 1 bob) frozen_registry).2).2
        = found d'
    ∧ name d' = "Temperature Data".
Proof.
  destruct (frozen_metadata_is_immutable frozen_registry
              (call as_bob (UpdateDatasetMetadata 1 "x" "y" "z" false)
                 (call as_alice (TransferDataset 1 bob) frozen_registry).2).2
              1
              (merge_frozen
                 (registered_dataset as_alice "Temperature Data"
                    "Atmospheric dataset" "temperature" 1640995200 1000 5000
                    40000000 (-74000000) "QmTestHash123" true) true)
              reachable_frozen_registry)
    as (d' & Hget & _ & Hname & _).
  - do 2 apply steps_call. apply steps_refl.
  - vm_compute; reflexivity.
  - reflexivity.
  - exists d'. split; [exact Hget|exact Hname].
Defined.

(** ** The owner index in reachable registries *)

(** X8. In a reachable registry [get-datasets-by-owner] lists exactly the
    ids of the records the owner holds, each once, and at most 1000 of
    them; every record sits at an id between 1 and the counter. *)
Theorem owner_index_lists_owned_records (s : State) :
  reachable s →
  (∀ o id, id ∈ get_datasets_by_owner o s
           ↔ ∃ d, get_dataset id s = found d ∧ owner d = o)
  ∧ (∀ o, NoDup (get_datasets_by_owner o s)
          ∧ (length (get_datasets_by_owner o s) ≤ 1000)%nat)
  ∧ (∀ id d, get_dataset id s = found d → 1 ≤ id ≤ dataset_counter s).
Proof.
  intros Hs. pose proof (reachable_inv s Hs) as Hinv.
  pose proof (reachable_wf s Hs) as Hwf.
  assert (Hget : ∀ id d, get_dataset id s = found d ↔ datasets s !! id = Some d).
  { intros id d. unfold get_dataset.
    destruct (datasets s !! id); split; congruence. }
  split; [|split].
  - intros o id. split.
    + intros Hin. destruct (inv_indexed s Hinv o id Hin) as (d & Hd & Ho).
      exists d. by rewrite Hget.
    + intros (d & Hd%Hget & <-). by apply (inv_owned s Hinv).
  - intros o. split; [apply (inv_nodup s Hinv)|apply (wf_capacity s Hwf)].
  - intros id d Hd%Hget.
    pose proof (inv_bounded s Hinv id d Hd).
    pose proof (wf_positive s Hwf id d Hd). lia.
Qed.

Lemma owner_index_lists_owned_records_witness :
  NoDup (get_datasets_by_owner bob two_records)
  ∧ (length (get_datasets_by_owner bob two_records) ≤ 1000)%nat.
Proof.
  refine (proj1 (proj2 (owner_index_lists_owned_records two_records _)) bob).
  apply reachable_call, reachable_one_record.
Defined.

(** X9. Every record stored in a reachable registry passes
    [validate-fields] on its current fields: non-empty name, description
    and data type, positive collection date, ordered altitudes,
    coordinates in range and a status that is active or deprecated. *)
Theorem stored_records_are_valid (s : State) (id : N) (d : Dataset) :
  reachable s → get_dataset id s = found d →
  validate_fields (name d) (description d) (data_type d) (collection_date d)
    (altitude_min d) (altitude_max d) (latitude d) (longitude d)
    (ipfs_hash d) (status d) = true
  ∧ name d ≠ EmptyString
  ∧ 0 < collection_date d
  ∧ altitude_min d ≤ altitude_max d
  ∧ (-90000000 ≤ latitude d ≤ 90000000)%Z
  ∧ (-180000000 ≤ longitude d ≤ 180000000)%Z
  ∧ (status d = "active" ∨ status d = "deprecated").
Proof.
  intros Hs Hget.
  assert (Hd : datasets s !! id = Some d).
  { unfold get_dataset in Hget. destruct (datasets s !! id); congruence. }
  pose proof (wf_valid s (reachable_wf s Hs) id d Hd) as Hv.
  split; [exact Hv|].
  unfold record_valid, validate_fields in Hv.
  repeat (apply andb_true_iff in Hv as [Hv ?]).
  repeat match goal with
         | H : _ && _ = true |- _ => apply andb_true_iff in H as [? ?]
         end.
  repeat split.
  - intros He. rewrite He in Hv. done.
  - by apply N.ltb_lt.
  - by apply N.leb_le.
  - by apply Z.leb_le.
  - by apply Z.leb_le.
  - by apply Z.leb_le.
  - by apply Z.leb_le.
  - unfold is_valid_status in *.
    match goal with
    | H : bool_decide _ || bool_decide _ = true |- _ =>
        apply orb_true_iff in H as [H|H]; apply bool_decide_eq_true in H
    end; [by left|by right].
Qed.

Lemma stored_records_are_valid_witness :
  name (registered_dataset as_alice "Temperature Data"
          "Atmospheric dataset" "temperature" 1640995200 1000 5000
          40000000 (-74000000) "QmTestHash123" true) ≠ EmptyString.
Proof.
  refine (proj1 (proj2 (stored_records_are_valid one_record 1 _
                          reachable_one_record _))).
  vm_compute; reflexivity.
Defined.

(** ** Counter, admin and pause *)

Lemma call_counter_le (env : Env) (c : Call) (s : State) :
  dataset_counter s ≤ dataset_counter (call env c s).2.
Proof.
  destruct c as [n ds dt cd amin amax lat lon ipfs pub
                |id n ds dt pub
                |id
                |id new_owner
                |id o n ds dt cd amin amax lat lon ipfs pub fr cat st
                |a
                |p].
  - rewrite call_register. cbv zeta. repeat case_match; simpl; lia.
  - rewrite call_update. repeat case_match; simpl; lia.
  - rewrite call_freeze. repeat case_match; simpl; lia.
  - rewrite call_transfer. cbv zeta. repeat case_match; simpl; lia.
  - rewrite call_import. cbv zeta.
    destruct (N.ltb_spec (dataset_counter s) id);
      repeat case_match; simpl; lia.
  - rewrite call_set_contract_admin. repeat case_match; simpl; lia.
  - rewrite call_set_paused. repeat case_match; simpl; lia.
Qed.

(** X10. [get-dataset-count] never goes down: along any sequence of calls
    the counter only grows, and a successful register raises it by exactly
    one and returns the new value. *)
Theorem counter_never_decreases (s s' : State) :
  steps s s' →
  dataset_counter s ≤ dataset_counter s'
  ∧ (∀ env n ds dt cd amin amax lat lon ipfs pub v,
       (call env (RegisterDataset n ds dt cd amin amax lat lon ipfs pub) s').1
       = Ok v →
       v = CUint (dataset_counter s' + 1)
       ∧ define_read_only get_dataset_count
           (call env (RegisterDataset n ds dt cd amin amax lat lon ipfs pub) s').2
         = Ok (dataset_counter s' + 1)).
Proof.
  intros Hsteps. split.
  - induction Hsteps as [|env c s s' _ IH]; [lia|].
    pose proof (call_counter_le env c s'). lia.
  - intros env n ds dt cd amin amax lat lon ipfs pub v.
    rewrite call_register. cbv zeta.
    repeat case_match; simpl; try done; by intros [= <-].
Qed.

Lemma counter_never_decreases_witness :
  dataset_counter one_record ≤ dataset_counter two_records.
Proof.
  refine (proj1 (counter_never_decreases one_record two_records _)).
  apply steps_call, steps_refl.
Defined.

(** X11. The admin and the pause flag change only through
    [set-contract-admin] and [set-paused] called by the current admin: a
    call from anyone else, and every register, update, freeze, transfer
    and import, leaves both as they were. *)
Theorem admin_and_pause_are_protected (env : Env) (c : Call) (s : State) :
  tx_sender env ≠ contract_admin s ∨ is_mutation c = true →
  contract_admin (call env c s).2 = contract_admin s
  ∧ contract_paused (call env c s).2 = contract_paused s.
Proof.
  intros Hwho.
  destruct c as [n ds dt cd amin amax lat lon ipfs pub
                |id n ds dt pub
                |id
                |id new_owner
                |id o n ds dt cd amin amax lat lon ipfs pub fr cat st
                |a
                |p].
  - rewrite call_register. cbv zeta. repeat case_match; simpl; done.
  - rewrite call_update. repeat case_match; simpl; done.
  - rewrite call_freeze. repeat case_match; simpl; done.
  - rewrite call_transfer. cbv zeta. repeat case_match; simpl; done.
  - rewrite call_import. cbv zeta. repeat case_match; simpl; done.
  - rewrite call_set_contract_admin.
    destruct Hwho as [Hne|Hm]; [|done].
    by rewrite bool_decide_eq_false_2.
  - rewrite call_set_paused.
    destruct Hwho as [Hne|Hm]; [|done].
    by rewrite bool_decide_eq_false_2.
Qed.

Lemma admin_and_pause_are_protected_witness :
  contract_admin (call as_bob (SetContractAdmin bob) one_record).2
  = contract_admin one_record
  ∧ contract_paused (call as_bob (SetContractAdmin bob) one_record).2
    = contract_paused one_record.
Proof.
  refine (admin_and_pause_are_protected as_bob (SetContractAdmin bob)
            one_record _).
  left. vm_compute. discriminate.
Defined.

(** X12. Handing the admin role over is immediate and exclusive: after
    the admin's [set-contract-admin] to someone else, the former admin's
    [set-paused], [set-contract-admin] and [import-dataset] fail with
    [ERR-NOT-AUTHORIZED] and change nothing, the new admin's [set-paused]
    succeeds, and nothing but the admin variable was changed. *)
Theorem admin_handover (env : Env) (s : State) (a : principal) :
  tx_sender env = contract_admin s →
  a ≠ tx_sender env →
  let s' := (call env (SetContractAdmin a) s).2 in
  (call env (SetContractAdmin a) s).1 = Ok (CPrincipal a)
  ∧ define_read_only get_contract_admin s' = Ok a
  ∧ datasets s' = datasets s
  ∧ datasets_by_owner s' = datasets_by_owner s
  ∧ dataset_counter s' = dataset_counter s
  ∧ contract_paused s' = contract_paused s
  ∧ (∀ p, call env (SetPaused p) s' = (Err ERR_NOT_AUTHORIZED, s'))
  ∧ (∀ b, call env (SetContractAdmin b) s' = (Err ERR_NOT_AUTHORIZED, s'))
  ∧ (∀ id o n ds dt cd amin amax lat lon ipfs pub fr cat st,
       call env
         (ImportDataset id o n ds dt cd amin amax lat lon ipfs pub fr cat st) s'
       = (Err ERR_NOT_AUTHORIZED, s'))
  ∧ (∀ env' p, tx_sender env' = a →
       call env' (SetPaused p) s' = (Ok (CBool p), with_contract_paused s' p)).
Proof.
  intros Hadmin Hne s'. subst s'.
  rewrite call_set_contract_admin. rewrite bool_decide_eq_true_2 by done.
  simpl. repeat split.
  - intros p. rewrite call_set_paused. simpl.
    by rewrite bool_decide_eq_false_2 by congruence.
  - intros b. rewrite call_set_contract_admin. simpl.
    by rewrite bool_decide_eq_false_2 by congruence.
  - intros. rewrite call_import. cbv zeta. simpl.
    by rewrite bool_decide_eq_false_2 by congruence.
  - intros env' p Ha. rewrite call_set_paused. simpl.
    by rewrite bool_decide_eq_true_2.
Qed.

Lemma admin_handover_witness :
  call as_alice (SetPaused true)
    (call as_alice (SetContractAdmin bob) one_record).2
  = (Err ERR_NOT_AUTHORIZED,
     (call as_alice (SetContractAdmin bob) one_record).2).
Proof.
  refine (proj1 (proj2 (proj2 (proj2 (proj2 (proj2 (proj2
            (admin_handover as_alice one_record bob _ _))))))) true).
  - vm_compute; reflexivity.
  - vm_compute. discriminate.
Defined.

(** ** Ownership after a transfer *)

(** X13. The owner's transfer to someone else with room in their index
    succeeds in a registry that is not paused whether or not the record is
    frozen, and hands the record over completely: the frozen flag is kept,
    the former owner's update, freeze and transfer of that id then fail
    with [ERR-NOT-AUTHORIZED], and the new owner's freeze succeeds. *)
Theorem transfer_hands_over_rights (env : Env) (s : State) (id : N)
    (new_owner : principal) (d : Dataset) :
  datasets s !! id = Some d →
  tx_sender env = owner d →
  contract_paused s = false →
  new_owner ≠ tx_sender env →
  (length (get_datasets_by_owner new_owner s) < 1000)%nat →
  let s' := (call env (TransferDataset id new_owner) s).2 in
  (call env (TransferDataset id new_owner) s).1 = Ok (CBool true)
  ∧ get_dataset id s' = found (merge_owner d new_owner)
  ∧ is_frozen s' id = metadata_frozen d
  ∧ (∀ n ds dt pub, call env (UpdateDatasetMetadata id n ds dt pub) s'
                    = (Err ERR_NOT_AUTHORIZED, s'))
  ∧ call env (FreezeDatasetMetadata id) s' = (Err ERR_NOT_AUTHORIZED, s')
  ∧ (∀ o, call env (TransferDataset id o) s' = (Err ERR_NOT_AUTHORIZED, s'))
  ∧ (∀ env', tx_sender env' = new_owner →
       (call env' (FreezeDatasetMetadata id) s').1 = Ok (CBool true)).
Proof.
  intros Hd Hown Hp Hne Hroom s'. subst s'.
  rewrite call_transfer, Hd. cbv zeta. rewrite Hp.
  rewrite bool_decide_eq_true_2 by done.
  assert (Hafter : ∀ t,
            datasets t = <[id := merge_owner d new_owner]> (datasets s) →
            contract_paused t = false →
            get_dataset id t = found (merge_owner d new_owner)
            ∧ is_frozen t id = metadata_frozen d
            ∧ (∀ n ds dt pub, call env (UpdateDatasetMetadata id n ds dt pub) t
                              = (Err ERR_NOT_AUTHORIZED, t))
            ∧ call env (FreezeDatasetMetadata id) t = (Err ERR_NOT_AUTHORIZED, t)
            ∧ (∀ o, call env (TransferDataset id o) t
                    = (Err ERR_NOT_AUTHORIZED, t))
            ∧ (∀ env', tx_sender env' = new_owner →
                 (call env' (FreezeDatasetMetadata id) t).1 = Ok (CBool true))).
  { intros t Ht Hpt.
    assert (Hlook : datasets t !! id = Some (merge_owner d new_owner)).
    { by rewrite Ht, lookup_insert_eq. }
    split; [by unfold get_dataset; rewrite Hlook|].
    split; [by unfold is_frozen; rewrite Hlook|].
    split; [|split; [|split]].
    - intros. rewrite call_update, Hlook, Hpt. simpl.
      by rewrite bool_decide_eq_false_2 by congruence.
    - rewrite call_freeze, Hlook, Hpt. simpl.
      by rewrite bool_decide_eq_false_2 by congruence.
    - intros. rewrite call_transfer, Hlook. cbv zeta. rewrite Hpt. simpl.
      by rewrite bool_decide_eq_false_2 by congruence.
    - intros env' He. rewrite call_freeze, Hlook, Hpt. simpl.
      by rewrite bool_decide_eq_true_2. }
  assert (Hmid : owner_dataset_ids
            (with_datasets_by_owner
               (with_datasets s (<[id:=merge_owner d new_owner]> (datasets s)))
               (index_remove s (owner d) id)) new_owner
          = get_datasets_by_owner new_owner s).
  { unfold owner_dataset_ids, index_remove, get_datasets_by_owner. simpl.
    rewrite lookup_insert_ne by congruence. done. }
  rewrite Hmid.
  destruct (bool_decide (id ∈ get_datasets_by_owner new_owner s)).
  - simpl. split; [done|]. by apply Hafter.
  - rewrite bool_decide_eq_true_2 by done.
    simpl. split; [done|]. by apply Hafter.
Qed.

Lemma transfer_hands_over_rights_witness :
  is_frozen frozen_registry 1 = true
  ∧ (call as_alice (TransferDataset 1 bob) frozen_registry).1 = Ok (CBool true)
  ∧ call as_alice (FreezeDatasetMetadata 1)
      (call as_alice (TransferDataset 1 bob) frozen_registry).2
    = (Err ERR_NOT_AUTHORIZED,
       (call as_alice (TransferDataset 1 bob) frozen_registry).2).
Proof.
  split; [vm_compute; reflexivity|].
  pose proof (transfer_hands_over_rights as_alice frozen_registry 1 bob
               (merge_frozen
                  (registered_dataset as_alice "Temperature Data"
                     "Atmospheric dataset" "temperature" 1640995200 1000 5000
                     40000000 (-74000000) "QmTestHash123" true) true)
               ltac:(vm_compute; reflexivity)
               ltac:(vm_compute; reflexivity)
               ltac:(vm_compute; reflexivity)
               ltac:(vm_compute; discriminate)
               ltac:(vm_compute; lia)) as H.
  split; [exact (proj1 H)|].
  exact (proj1 (proj2 (proj2 (proj2 (proj2 H))))).
Defined.

(** ** Registration *)

(** X14. In a reachable registry that is not paused, a register call
    with valid fields, a counter below the uint maximum and room in the
    caller's index returns [counter + 1], an id no record had; afterwards
    [get-dataset] of that id returns the submitted fields with the caller
    as owner, not frozen, status active and the block height as creation
    time, the counter is that id, the id is the last entry of the caller's
    list, and all other records and lists are as before. *)
Theorem register_then_get (env : Env) (s : State) (n ds dt : string)
    (cd amin amax : N) (lat lon : Z) (ipfs : string) (pub : bool) :
  reachable s →
  contract_paused s = false →
  validate_fields n ds dt cd amin amax lat lon ipfs "active" = true →
  dataset_counter s < UINT_MAX →
  (length (get_datasets_by_owner (tx_sender env) s) < 1000)%nat →
  let id := dataset_counter s + 1 in
  let r := call env (RegisterDataset n ds dt cd amin amax lat lon ipfs pub) s in
  r.1 = Ok (CUint id)
  ∧ get_dataset id s = not_found (err ERR_DATASET_NOT_FOUND)
  ∧ get_dataset id r.2
    = found {| owner := tx_sender env; name := n; description := ds;
               data_type := dt; collection_date := cd; altitude_min := amin;
               altitude_max := amax; latitude := lat; longitude := lon;
               ipfs_hash := ipfs; is_public := pub; metadata_frozen := false;
               created_at := burn_block_height env; status := "active" |}
  ∧ (∀ id', id' ≠ id → get_dataset id' r.2 = get_dataset id' s)
  ∧ dataset_counter r.2 = id
  ∧ get_datasets_by_owner (tx_sender env) r.2
    = get_datasets_by_owner (tx_sender env) s ++ [id]
  ∧ (∀ o, o ≠ tx_sender env →
       get_datasets_by_owner o r.2 = get_datasets_by_owner o s).
Proof.
  intros Hs Hp Hv Hc Hroom id r. subst id r.
  pose proof (reachable_inv s Hs) as Hinv.
  assert (Hfree : datasets s !! (dataset_counter s + 1) = None).
  { destruct (datasets s !! (dataset_counter s + 1)) as [d|] eqn:Hd; [|done].
    pose proof (inv_bounded s Hinv _ _ Hd). lia. }
  rewrite call_register. cbv zeta.
  destruct (N.leb_spec (dataset_counter s + 1) UINT_MAX); [|lia].
  rewrite Hp, Hv.
  rewrite bool_decide_eq_false_2
    by (by apply free_id_not_indexed).
  rewrite bool_decide_eq_true_2 by done.
  unfold get_dataset, get_datasets_by_owner, index_append, owner_dataset_ids.
  simpl. rewrite Hfree, !lookup_insert_eq. repeat split.
  - intros id' Hne. by rewrite lookup_insert_ne.
  - intros o Hne. by rewrite lookup_insert_ne.
Qed.

Lemma register_then_get_witness :
  (call as_bob sample_register one_record).1 = Ok (CUint 2).
Proof.
  refine (proj1 (register_then_get as_bob one_record "Temperature Data"
                   "Atmospheric dataset" "temperature" 1640995200 1000 5000
                   40000000 (-74000000) "QmTestHash123" true
                   reachable_one_record _ _ _ _)).
  - vm_compute; reflexivity.
  - vm_compute; reflexivity.
  - vm_compute; reflexivity.
  - vm_compute; lia.
Defined.

(** X15. How register fails, in the order the checks run: a counter at
    the uint maximum aborts the call whatever else holds; otherwise a
    paused registry gives [ERR-CONTRACT-PAUSED]; otherwise invalid fields
    give [ERR-INVALID-PARAMS]; otherwise, in a reachable registry, a
    caller who already holds 1000 datasets gets [ERR-INVALID-PARAMS].  In
    each case nothing is written. *)
Theorem register_failures (env : Env) (s : State) (n ds dt : string)
    (cd amin amax : N) (lat lon : Z) (ipfs : string) (pub : bool) :
  let r := call env (RegisterDataset n ds dt cd amin amax lat lon ipfs pub) s in
  (UINT_MAX ≤ dataset_counter s → r = (Abort, s))
  ∧ (dataset_counter s < UINT_MAX → contract_paused s = true →
       r = (Err ERR_CONTRACT_PAUSED, s))
  ∧ (dataset_counter s < UINT_MAX → contract_paused s = false →
       validate_fields n ds dt cd amin amax lat lon ipfs "active" = false →
       r = (Err ERR_INVALID_PARAMS, s))
  ∧ (dataset_counter s < UINT_MAX → contract_paused s = false →
       validate_fields n ds dt cd amin amax lat lon ipfs "active" = true →
       reachable s →
       (1000 ≤ length (get_datasets_by_owner (tx_sender env) s))%nat →
       r = (Err ERR_INVALID_PARAMS, s)).
Proof.
  intros r. subst r. rewrite call_register. cbv zeta. repeat split.
  - intros Hc. by destruct (N.leb_spec (dataset_counter s + 1) UINT_MAX); [lia|].
  - intros Hc ->. by destruct (N.leb_spec (dataset_counter s + 1) UINT_MAX); [|lia].
  - intros Hc -> ->.
    by destruct (N.leb_spec (dataset_counter s + 1) UINT_MAX); [|lia].
  - intros Hc -> -> Hs Hfull.
    destruct (N.leb_spec (dataset_counter s + 1) UINT_MAX); [|lia].
    pose proof (reachable_inv s Hs) as Hinv.
    assert (Hfree : datasets s !! (dataset_counter s + 1) = None).
    { destruct (datasets s !! (dataset_counter s + 1)) as [d|] eqn:Hd; [|done].
      pose proof (inv_bounded s Hinv _ _ Hd). lia. }
    rewrite bool_decide_eq_false_2 by (by apply free_id_not_indexed).
    rewrite bool_decide_eq_false_2; [done|].
    unfold get_datasets_by_owner in Hfull. unfold owner_dataset_ids. lia.
Qed.

Lemma register_failures_witness :
  call as_bob sample_register paused_registry
  = (Err ERR_CONTRACT_PAUSED, paused_registry).
Proof.
  refine (proj1 (proj2 (register_failures as_bob paused_registry
            "Temperature Data" "Atmospheric dataset" "temperature"
            1640995200 1000 5000 40000000 (-74000000) "QmTestHash123" true))
            _ _);
    vm_compute; reflexivity.
Defined.

(** X16. After [n] successful registrations on a fresh contract, whoever
    made them, [get-dataset-count] is [n] and [get-dataset] finds a
    record exactly at the ids [1 .. n], each of them active and not
    frozen. *)
Theorem registrations_are_numbered (k : nat) (s : State) :
  registered k s →
  define_read_only get_dataset_count s = Ok (N.of_nat k)
  ∧ (∀ id, (∃ d, get_dataset id s = found d) ↔ 1 ≤ id ≤ N.of_nat k)
  ∧ (∀ id d, get_dataset id s = found d →
       status d = "active" ∧ metadata_frozen d = false).
Proof.
  assert (Hget : ∀ t id d, get_dataset id t = found d ↔ datasets t !! id = Some d).
  { intros t id d. unfold get_dataset.
    destruct (datasets t !! id); split; congruence. }
  induction 1 as [deployer|k s env n ds dt cd amin amax lat lon ipfs pub Hreg IH Hok].
  - split; [done|]. split.
    + intros id. split; [|lia]. intros (d & Hd%Hget). simpl in Hd.
      by rewrite lookup_empty in Hd.
    + intros id d Hd%Hget. simpl in Hd. by rewrite lookup_empty in Hd.
  - destruct IH as (Hcount & Hdom & Hfresh).
    assert (Hc : dataset_counter s = N.of_nat k).
    { unfold define_read_only, get_dataset_count, var_get, bind, ret in Hcount.
      congruence. }
    revert Hok. rewrite call_register. cbv zeta.
    assert (Hnew : ∀ t,
              datasets t
              = <[dataset_counter s + 1 :=
                    registered_dataset env n ds dt cd amin amax lat lon ipfs pub]>
                  (datasets s) →
              dataset_counter t = dataset_counter s + 1 →
              define_read_only get_dataset_count t = Ok (N.of_nat (S k))
              ∧ (∀ id, (∃ d, get_dataset id t = found d)
                       ↔ 1 ≤ id ≤ N.of_nat (S k))
              ∧ (∀ id d, get_dataset id t = found d →
                   status d = "active" ∧ metadata_frozen d = false)).
    { intros t Hds Hct. split; [|split].
      - unfold define_read_only, get_dataset_count, var_get, bind, ret.
        f_equal. lia.
      - intros id. setoid_rewrite Hget. rewrite Hds.
        destruct (decide (id = dataset_counter s + 1)) as [->|Hne].
        + rewrite lookup_insert_eq. split; [lia|eauto].
        + rewrite lookup_insert_ne by done. setoid_rewrite <- Hget.
          rewrite Hdom. lia.
      - intros id d Hd%Hget. rewrite Hds in Hd.
        apply insert_old_or_new in Hd as [Hd|[_ ->]]; [|done].
        apply (Hfresh id). by apply Hget. }
    repeat case_match; simpl; try done; intros _; by apply Hnew.
Qed.

Lemma registrations_are_numbered_witness :
  define_read_only get_dataset_count two_records = Ok (N.of_nat 2).
Proof.
  refine (proj1 (registrations_are_numbered 2 two_records _)).
  apply registered_S; [|vm_compute; reflexivity].
  apply (registered_S 0 (initial_state alice) as_alice);
    [apply registered_O|vm_compute; reflexivity].
Defined.

(** ** Removing from an owner index *)

(** X17. [remove-dataset-from-owner] always succeeds; afterwards the id
    is not in the owner's sequence, the other ids keep their order (the
    sequence is the old one filtered), other owners and the rest of the
    state are untouched, and removing an absent id leaves the sequence as
    it was.  It undoes an add: adding an absent id and removing it again
    gives back the original sequence. *)
Theorem remove_dataset_from_owner_spec (o : principal) (id : N) (s : State) :
  ∃ s', remove_dataset_from_owner o id s = Value true s'
    ∧ owner_dataset_ids s' o = filter (λ x, x ≠ id) (owner_dataset_ids s o)
    ∧ (id ∉ owner_dataset_ids s' o)
    ∧ (∀ x, x ≠ id → x ∈ owner_dataset_ids s' o ↔ x ∈ owner_dataset_ids s o)
    ∧ (id ∉ owner_dataset_ids s o →
         owner_dataset_ids s' o = owner_dataset_ids s o)
    ∧ (∀ o', o' ≠ o → owner_dataset_ids s' o' = owner_dataset_ids s o')
    ∧ datasets s' = datasets s
    ∧ dataset_counter s' = dataset_counter s
    ∧ (∀ s1, id ∉ owner_dataset_ids s o →
         add_dataset_to_owner o id s = Value (ok true) s1 →
         ∃ s2, remove_dataset_from_owner o id s1 = Value true s2
               ∧ owner_dataset_ids s2 o = owner_dataset_ids s o).
Proof.
  eexists. split; [apply remove_dataset_from_owner_eq|].
  assert (Hids : ∀ t l, owner_dataset_ids
            (with_datasets_by_owner t (<[o := l]> (datasets_by_owner t))) o = l).
  { intros t l. unfold owner_dataset_ids. simpl. by rewrite lookup_insert_eq. }
  rewrite Hids. split; [done|]. split; [|split; [|split; [|split; [|split;
    [done|split; [done|]]]]]].
  - intros [Hne _]%(list_elem_of_filter (λ y, y ≠ id)). done.
  - intros x Hne. rewrite (list_elem_of_filter (λ y, y ≠ id)). tauto.
  - intros Hnotin. by apply filter_ne_absent.
  - intros o' Hne. unfold owner_dataset_ids. simpl.
    by rewrite lookup_insert_ne.
  - intros s1 Hnotin. rewrite add_dataset_to_owner_eq.
    rewrite bool_decide_eq_false_2 by done.
    destruct (bool_decide (_ < _)%nat); [|done]. intros [= <-].
    eexists. split; [apply remove_dataset_from_owner_eq|].
    rewrite Hids, Hids. rewrite filter_app, filter_ne_absent by done.
    rewrite filter_cons_False by (intros H; by apply H).
    by rewrite filter_nil, app_nil_r.
Qed.

(** ** Pausing *)

(** X18. While the registry is paused no register, update, freeze,
    transfer or import succeeds, whoever calls, and the state stays
    exactly as it is; the admin's pause followed by the admin's unpause
    gives back the state from before the pause. *)
Theorem pause_freezes_the_registry (env : Env) (s : State) :
  (contract_paused s = true →
     ∀ env' c, is_mutation c = true →
       is_Ok (call env' c s).1 = false ∧ (call env' c s).2 = s)
  ∧ (tx_sender env = contract_admin s → contract_paused s = false →
     (call env (SetPaused false) (call env (SetPaused true) s).2).2 = s
     ∧ define_read_only is_contract_paused (call env (SetPaused true) s).2
       = Ok true).
Proof.
  split.
  - intros Hp env' c Hm.
    assert (Hfail : is_Ok (call env' c s).1 = false).
    { destruct c as [n ds dt cd amin amax lat lon ipfs pub
                    |id n ds dt pub
                    |id
                    |id new_owner
                    |id o n ds dt cd amin amax lat lon ipfs pub fr cat st
                    |a
                    |p]; try done.
      - rewrite call_register. cbv zeta. rewrite Hp.
        by destruct (_ <=? UINT_MAX).
      - rewrite call_update, Hp. by destruct (datasets s !! id).
      - rewrite call_freeze, Hp. by destruct (datasets s !! id).
      - rewrite call_transfer. cbv zeta. rewrite Hp.
        by destruct (datasets s !! id).
      - rewrite call_import. cbv zeta. rewrite Hp.
        by destruct (bool_decide _). }
    split; [done|]. by apply define_public_rollback.
  - intros Hadmin Hp. rewrite (call_set_paused env true s).
    rewrite bool_decide_eq_true_2 by done. simpl.
    rewrite call_set_paused. simpl.
    rewrite bool_decide_eq_true_2 by done. simpl.
    split; [|done]. destruct s; simpl in *. by subst.
Qed.

Lemma pause_freezes_the_registry_witness :
  (call as_bob sample_register paused_registry).2 = paused_registry.
Proof.
  refine (proj2 (proj1 (pause_freezes_the_registry as_alice paused_registry)
                   _ as_bob sample_register _));
    vm_compute; reflexivity.
Defined.
